(** * FinAgentAI: the chat front end and the orchestration core

A shallow embedding of the parts of the repository its specification
speaks about: the API client ([services/api.js]), the market and
portfolio chat pages, the chat input component, and the back end's
result cache, conversation memory, planner and session store.

JavaScript strings are sequences of UTF-16 code units, JSON values are
a tagged union, promises are their outcome (fulfilled or rejected), the
React state of a page is a record threaded through its handlers, and
[new Date()] is a time stamp handed in by the caller. *)

From Stdlib Require Import ZArith NArith Lia Ascii String DecimalString Floats.
From stdpp Require Import base numbers list option gmap strings.
Import ListNotations.

Set Default Proof Using "Type".
Set Warnings "-register-all".

(* ------------------------------------------------------------------ *)
(** * Part I: the program                                              *)
(* ------------------------------------------------------------------ *)

(** ** JavaScript strings, JSON values, promise outcomes *)
Module JS.

(** A string is the list of its UTF-16 code units. *)
Abbreviation jsstring := (list N).

(** An ASCII literal of the source as code units. *)
Definition lit (s : string) : jsstring :=
  N_of_ascii <$> list_ascii_of_string s.

(** ToBoolean on a string: the empty string is the only falsy one. *)
Definition nonempty (s : jsstring) : bool :=
  match s with [] => false | _ :: _ => true end.

(** The code points [String.prototype.trim] strips: ECMAScript's
    WhiteSpace (TAB, VT, FF, SP, NBSP, ZWNBSP and the category Zs) and
    LineTerminator (LF, CR, LS, PS). *)
Definition is_white_space (c : N) : bool :=
  ((c =? 9) || (c =? 10) || (c =? 11) || (c =? 12) || (c =? 13)
   || (c =? 32) || (c =? 160) || (c =? 5760)
   || ((8192 <=? c) && (c <=? 8202))
   || (c =? 8232) || (c =? 8233) || (c =? 8239) || (c =? 8287)
   || (c =? 12288) || (c =? 65279))%N.

Fixpoint trimStart (s : jsstring) : jsstring :=
  match s with
  | [] => []
  | c :: s' => if is_white_space c then trimStart s' else s
  end.

Definition trimEnd (s : jsstring) : jsstring :=
  reverse (trimStart (reverse s)).

Definition trim (s : jsstring) : jsstring := trimEnd (trimStart s).

(** [s.startsWith(p)] *)
Fixpoint startsWith (p s : jsstring) : bool :=
  match p, s with
  | [], _ => true
  | _ :: _, [] => false
  | a :: p', b :: s' => (a =? b)%N && startsWith p' s'
  end.

(** [s.includes(needle)] *)
Fixpoint includes (needle s : jsstring) : bool :=
  startsWith needle s
  || match s with
     | [] => false
     | _ :: s' => includes needle s'
     end.

(** [s.slice(n)] for a non-negative [n]. *)
Definition slice (n : nat) (s : jsstring) : jsstring := drop n s.

(** [s.split(sep)] for a one-unit separator: never the empty array. *)
Fixpoint split (sep : N) (s : jsstring) : list jsstring :=
  match s with
  | [] => [[]]
  | c :: s' =>
      if (c =? sep)%N then [] :: split sep s'
      else match split sep s' with
           | l :: ls => (c :: l) :: ls
           | [] => [[c]]
           end
  end.

(** [`${n}`] for a non-negative integer. *)
Definition decimal (n : N) : jsstring :=
  lit (NilEmpty.string_of_uint (N.to_uint n)).

(** What [JSON.parse] can return.  Numbers are IEEE doubles.  An object
    lists its own properties, each key once. *)
Inductive JValue :=
| JNull
| JBool (b : bool)
| JNum (x : float)
| JStr (s : jsstring)
| JArr (xs : list JValue)
| JObj (fields : list (jsstring * JValue)).

(** The result of reading a property: a value or [undefined]. *)
Inductive jsval :=
| undefined
| val (v : JValue).

(** ToBoolean. *)
Definition truthy_value (v : JValue) : bool :=
  match v with
  | JNull => false
  | JBool b => b
  | JNum x => negb (PrimFloat.eqb x 0) && negb (PrimFloat.is_nan x)
  | JStr s => nonempty s
  | JArr _ | JObj _ => true
  end.

Definition truthy (v : jsval) : bool :=
  match v with
  | undefined => false
  | val v => truthy_value v
  end.

(** The property names the front end reads off a parsed reply. *)
Inductive field := f_error | f_done | f_content | f_response.

Definition field_name (f : field) : jsstring :=
  match f with
  | f_error => lit "error"
  | f_done => lit "done"
  | f_content => lit "content"
  | f_response => lit "response"
  end.

Fixpoint own_property (fields : list (jsstring * JValue)) (name : jsstring)
  : jsval :=
  match fields with
  | [] => undefined
  | (k, v) :: rest =>
      if decide (k = name) then val v else own_property rest name
  end.

(** [data.f]: reading off [null] throws a TypeError ([None]); booleans,
    numbers, strings and arrays have none of the four properties. *)
Definition get (data : JValue) (f : field) : option jsval :=
  match data with
  | JNull => None
  | JObj fields => Some (own_property fields (field_name f))
  | JBool _ | JNum _ | JStr _ | JArr _ => Some undefined
  end.

(** Whether an object has an own property of that name. *)
Definition has_own (fields : list (jsstring * JValue)) (name : jsstring)
  : bool :=
  match own_property fields name with
  | undefined => false
  | val _ => true
  end.

(** Whether a value can be converted to a string ([String(v)],
    [s + v], [new Error(v)]) without a TypeError.  A parsed object is
    converted by the [toString] it finds: an own [toString] property
    holds a JSON value, which is no function, and the inherited
    [valueOf] returns the object itself, so the conversion throws; with
    no such property [Object.prototype.toString] answers.  An array is
    converted by joining the conversions of its elements, [null] ones
    left out. *)
Fixpoint convertible_value (v : JValue) : bool :=
  match v with
  | JNull | JBool _ | JNum _ | JStr _ => true
  | JArr xs => forallb convertible_value xs
  | JObj fields => negb (has_own fields (lit "toString"))
  end.

Definition convertible (v : jsval) : bool :=
  match v with
  | undefined => true
  | val v => convertible_value v
  end.

(** [typeof v === 'string'] *)
Definition is_string (v : jsval) : bool :=
  match v with
  | val (JStr _) => true
  | _ => false
  end.

(** A thrown value, seen through the one property the code reads off it,
    [message].  A rejection that carries no message has the empty one:
    the code reads it as [e.message || ''] everywhere. *)
Record exn := Error { message : jsstring }.

(** How an awaited call ends. *)
Inductive outcome (A : Type) :=
| Returns (a : A)
| Throws (e : exn).
Arguments Returns {A} a.
Arguments Throws {A} e.

(** A [fetch] request of the API client: every one is a POST with a JSON
    body holding [user_query]. *)
Record Request := mkRequest {
  path : jsstring;
  user_query : jsstring
}.

(** A [fetch] response: [response_text] is what [response.text()] resolves to,
    [reads] what successive [reader.read()] calls on [response.body]
    deliver, each chunk already passed through the streaming text decoder;
    when [reads] is used up the reader reports [done]. *)
Record Response := mkResponse {
  ok : bool;
  status : N;
  response_text : outcome jsstring;
  reads : list (outcome jsstring)
}.

End JS.

(** ** The API client, [services/api.js] *)
Module Api.
Import JS.

Section Client.
(** The platform: [JSON.parse] and [fetch]. *)
Variable JSON_parse : jsstring -> outcome JValue.
Variable fetch : Request -> outcome Response.

(** [response.json()] *)
Definition json (response : Response) : outcome JValue :=
  match response_text response with
  | Returns s => JSON_parse s
  | Throws e => Throws e
  end.

(** The error thrown on a reply that is not ok. *)
Definition server_error (response : Response) : exn :=
  let errorBody :=
    match response_text response with
    | Returns s => s
    | Throws _ => []
    end in
  Error (lit "Server error " ++ decimal (status response)
         ++ (if nonempty errorBody then lit ": " ++ errorBody else [])).

Definition invalid_format : exn :=
  Error (lit "Invalid response format from server").

(** [marketChatbotSync(userQuery)]; the catch logs and rethrows. *)
Definition marketChatbotSync (userQuery : jsstring) : outcome JValue :=
  match fetch (mkRequest (lit "/market_chatbot/sync") userQuery) with
  | Throws e => Throws e
  | Returns response =>
      if negb (ok response) then Throws (server_error response)
      else
        match json response with
        | Throws e => Throws e
        | Returns data =>
            if negb (truthy_value data) then Throws invalid_format
            else
              match get data f_response with
              | Some v =>
                  if is_string v then Returns data
                  else Throws invalid_format
              | None => Throws invalid_format
              end
        end
  end.

(** *** [portfolioChatbotStream]

    The three callbacks are optional in the source ([if (onError) ...]);
    [callbacks] says which are supplied.  A callback's effect is the
    event it is called with.  What [onChunk] throws is caught by the
    try block around it like a parse error, and the loop goes on as it
    does after a call that returns; [onComplete] and [onError] return
    normally, as those of the portfolio page do. *)
Record callbacks := mkCallbacks {
  onChunk : bool;
  onComplete : bool;
  onError : bool
}.

(** What [onError] receives: [new Error(data.error)] for a chunk, whose
    message is the conversion of [data.error] to a string, or the value
    the outer catch caught. *)
Inductive stream_error :=
| ChunkError (v : jsval)
| Caught (e : exn).

Inductive event :=
| OnChunk (content : jsval)
| OnComplete
| OnError (e : stream_error).




(** After a line the loop either goes on or the function returns. *)
Inductive control := Continue | Return.

Variable cb : callbacks.

Definition call (supplied : bool) (e : event) : list event :=
  if supplied then [e] else [].

(** The body of [for (const line of lines)]: a line that is not a
    [data: ] line is skipped; what [JSON.parse], a property read or
    [new Error(data.error)] throws is caught, logged and the loop goes
    on.  [new Error(data.error)] is evaluated only when [onError] is
    supplied, and throws when [data.error] cannot be converted to a
    string: then [onError] is not called and the [return] is not
    reached. *)
Definition handle_line (line : jsstring) : list event * control :=
  if startsWith (lit "data: ") line then
    match JSON_parse (slice 6 line) with
    | Throws _ => ([], Continue)
    | Returns data =>
        match get data f_error with
        | None => ([], Continue)
        | Some err =>
            if truthy err then
              if onError cb then
                if convertible err then ([OnError (ChunkError err)], Return)
                else ([], Continue)
              else ([], Return)
            else
              match get data f_done with
              | None => ([], Continue)
              | Some dn =>
                  if truthy dn then
                    (call (onComplete cb) OnComplete, Return)
                  else
                    match get data f_content with
                    | None => ([], Continue)
                    | Some content =>
                        if truthy content && onChunk cb then
                          ([OnChunk content], Continue)
                        else ([], Continue)
                    end
              end
        end
    end
  else ([], Continue).

Fixpoint for_lines (lines : list jsstring) : list event * control :=
  match lines with
  | [] => ([], Continue)
  | line :: rest =>
      match handle_line line with
      | (evs, Return) => (evs, Return)
      | (evs, Continue) =>
          let '(evs', c) := for_lines rest in (evs ++ evs', c)
      end
  end.

(** [lines.pop()]: the array without its last element, and that
    element ([undefined], here [None], on the empty array). *)
Definition pop (lines : list jsstring) : list jsstring * option jsstring :=
  (take (length lines - 1) lines, last lines).

(** The outer catch: log, [onError(error)], rethrow. *)
Definition catch (e : exn) : list event * outcome unit :=
  (call (onError cb) (OnError (Caught e)), Throws e).

(** [while (true)], one iteration for each [reader.read()]. *)
Fixpoint read_loop (rs : list (outcome jsstring)) (buffer : jsstring)
  : list event * outcome unit :=
  match rs with
  | [] => (call (onComplete cb) OnComplete, Returns tt)
  | Throws e :: _ => catch e
  | Returns value :: rest =>
      let '(lines, popped) := pop (split 10 (buffer ++ value)) in
      let buffer' := default [] popped in
      match for_lines lines with
      | (evs, Return) => (evs, Returns tt)
      | (evs, Continue) =>
          let '(evs', r) := read_loop rest buffer' in (evs ++ evs', r)
      end
  end.

Definition portfolioChatbotStream (userQuery : jsstring)
  : list event * outcome unit :=
  match fetch (mkRequest (lit "/portfolio_chatbot/stream") userQuery) with
  | Throws e => catch e
  | Returns response =>
      if negb (ok response) then catch (server_error response)
      else read_loop (reads response) []
  end.

End Client.
End Api.

(** ** The chat transcript of both pages *)
Module Transcript.
Import JS.

Inductive Role := user | bot.

(** A message object.  [role] is [None] where the property is
    [undefined]; [streaming] is the flag of the portfolio page, false
    where the property is absent. *)
Record Msg := mkMsg {
  role : option Role;
  text : jsstring;
  timestamp : N;
  streaming : bool
}.

(** A JavaScript array of messages; [None] is an empty slot, which reads
    as [undefined]. *)
Abbreviation Msgs := (list (option Msg)).

(** [arr[i] = x]: in range the slot is replaced, out of range the array
    grows, with empty slots up to [i]. *)
Definition assign (arr : Msgs) (i : nat) (x : Msg) : Msgs :=
  if decide (i < length arr) then <[i := Some x]> arr
  else arr ++ replicate (i - length arr) None ++ [Some x].

(** [{ ...old, text: newText, timestamp: new Date() }]; spreading
    [undefined] adds nothing. *)
Definition respread (old : option Msg) (newText : jsstring) (now : N) : Msg :=
  match old with
  | Some m => mkMsg (role m) newText now (streaming m)
  | None => mkMsg None newText now false
  end.

(** The first two statements of [handleEdit], the same on both pages:
    [const newMsgs = msgs.slice(0, index + 1);
     newMsgs[index] = { ...newMsgs[index], text: newText, timestamp: new Date() }]. *)
Definition edited (msgs : Msgs) (index : nat) (newText : jsstring) (now : N)
  : Msgs :=
  let newMsgs := take (index + 1) msgs in
  assign newMsgs index (respread (mjoin (newMsgs !! index)) newText now).

(** The React state of a chat page. *)
Record State := mkState {
  msgs : Msgs;
  loading : bool
}.

(** [setMsgs((m) => [...m, msg])] *)
Definition push (st : State) (msg : Msg) : State :=
  mkState (msgs st ++ [Some msg]) (loading st).

Definition setLoading (st : State) (b : bool) : State :=
  mkState (msgs st) b.

End Transcript.

(** ** The market chat page *)
Module MarketChat.
Import JS Transcript.

Definition fallback : jsstring :=
  lit "Sorry " ++ [8212%N]
  ++ lit " I couldn't get a reply from the server. Please try again.".

Definition friendly_prefix : jsstring :=
  lit "Sorry, something went wrong while contacting the market assistant. ".

(** [data && typeof data.response === "string" && data.response.trim()
     ? data.response : "Sorry ..."] *)
Definition botReply (data : JValue) : jsstring :=
  if truthy_value data then
    match get data f_response with
    | Some (val (JStr s)) => if nonempty (trim s) then s else fallback
    | _ => fallback
    end
  else fallback.

(** [`Sorry, ... assistant. ${e.message || ''}`] *)
Definition friendly (e : exn) : jsstring := friendly_prefix ++ message e.

Section Page.
Variable JSON_parse : jsstring -> outcome JValue.
Variable fetch : Request -> outcome Response.

(** The text of the bot message: [botReply] in the try block,
    [friendly] in the catch block. *)
Definition reply_text (query : jsstring) : jsstring :=
  match Api.marketChatbotSync JSON_parse fetch query with
  | Returns data => botReply data
  | Throws e => friendly e
  end.

(** The try / catch / finally both handlers end with: one bot message
    is pushed, then loading is switched off. *)
Definition reply (st : State) (query : jsstring) (now : N) : State :=
  setLoading (push st (mkMsg (Some bot) (reply_text query) now false)) false.

(** [handleSend(q)] up to its [await]: the user message is shown and
    loading switched on. *)
Definition handleSend_begin (st : State) (q : jsstring) (now : N) : State :=
  setLoading (push st (mkMsg (Some user) q now false)) true.

(** [handleSend(q)]; [t_user] and [t_bot] are the two [new Date()]. *)
Definition handleSend (st : State) (q : jsstring) (t_user t_bot : N)
  : State :=
  reply (handleSend_begin st q t_user) q t_bot.

(** [handleEdit(index, newText)] up to its [await]. *)
Definition handleEdit_begin (st : State) (index : nat) (newText : jsstring)
  (now : N) : State :=
  setLoading (mkState (edited (msgs st) index newText now) (loading st)) true.

Definition handleEdit (st : State) (index : nat) (newText : jsstring)
  (t_edit t_bot : N) : State :=
  reply (handleEdit_begin st index newText t_edit) newText t_bot.

End Page.
End MarketChat.

(** ** The portfolio chat page: the part of [handleEdit] before the
    stream is opened *)
Module PortfolioChat.
Import JS Transcript.

Definition handleEdit_begin (st : State) (index : nat) (newText : jsstring)
  (now : N) : State :=
  setLoading (mkState (edited (msgs st) index newText now) (loading st)) true.

End PortfolioChat.

(** ** The chat input component *)
Module ChatInput.
Import JS.

(** What a submission does: the argument [onSend] is called with, if it
    is called, and the [text] state afterwards. *)
Record Submitted := mkSubmitted {
  sent : option jsstring;
  text_after : jsstring
}.

(** [submit(e)] with the component's [text] state and [loading] prop. *)
Definition submit (text : jsstring) (loading : bool) : Submitted :=
  let t := trim text in
  if negb (nonempty t) || loading then mkSubmitted None text
  else mkSubmitted (Some t) [].

(** A key event: [e.key] and [e.shiftKey]. *)
Record KeyEvent := mkKeyEvent {
  key : jsstring;
  shiftKey : bool
}.

Definition handleKeyDown (e : KeyEvent) (text : jsstring) (loading : bool)
  : Submitted :=
  if bool_decide (key e = lit "Enter") && negb (shiftKey e)
  then submit text loading
  else mkSubmitted None text.

End ChatInput.

(** ** The result cache and the execution engine's use of it *)
Module Engine.

(** What an upstream tool invocation settles with. *)
Inductive ToolOutcome (V : Type) :=
| Success (v : V)
| Failure.
Arguments Success {V} v.
Arguments Failure {V}.

(** What the engine sees: an idempotent-or-not call is issued, or an
    upstream invocation it started settles. *)
Inductive event (K V : Type) :=
| Call (k : K)
| Settle (k : K) (r : ToolOutcome V).
Arguments Call {K V} k.
Arguments Settle {K V} k r.

(** How the engine resolved a call. *)
Inductive served (V : Type) :=
| FromCache (v : V)
| Coalesced
| Invoked.
Arguments FromCache {V} v.
Arguments Coalesced {V}.
Arguments Invoked {V}.

Record CacheEntry (V : Type) := mkEntry {
  value : V;
  expires_at : nat
}.
Arguments mkEntry {V} value expires_at.
Arguments value {V} _.
Arguments expires_at {V} _.

Section Engine.
(** share_agent.py, with its ToolResultCache and execute_tools, is not
    among the sources; what follows is modelled from the specification.
    A call is represented by its fingerprint (tool name and normalised
    input, spec 4.2), so identical calls are calls with the same [K];
    [idempotent] is the ToolSpec flag of the call's tool and [ttl] the
    time to live of its tool class.  Time is counted in seconds. *)
Context {K : Type} {K_eq : EqDecision K} {K_countable : Countable K}.
Variable V : Type.
Variable idempotent : K -> bool.
Variable ttl : K -> nat.

(** Modelled from the spec: [Get] of the cache of 3 and 4.2
    (ToolResultCache is absent).  An expired entry is treated as absent
    and evicted on the read. *)
Definition Get (cache : gmap K (CacheEntry V)) (key : K) (now : nat)
  : gmap K (CacheEntry V) * option V :=
  match cache !! key with
  | Some e =>
      if decide (now < expires_at e) then (cache, Some (value e))
      else (delete key cache, None)
  | None => (cache, None)
  end.

(** Modelled from the spec: [Put] of 4.2 (ToolResultCache is absent);
    the entry expires at [now + ttl]. *)
Definition Put (cache : gmap K (CacheEntry V)) (key : K) (v : V)
  (ttl_ now : nat) : gmap K (CacheEntry V) :=
  <[key := mkEntry v (now + ttl_)]> cache.

(** Modelled from the spec: the state of the engine (execute_tools is
    absent): the cache, the fingerprints with an upstream invocation in
    flight, and the log of upstream invocations. *)
Record engine := mkEngine {
  cache : gmap K (CacheEntry V);
  inflight : gset K;
  upstream : list (K * nat)
}.

Definition start : engine := mkEngine ∅ ∅ [].

(** Modelled from the spec: execute_tools (absent), as 4.2 and 4.3
    describe it.  An idempotent call consults the cache, then joins an
    invocation in flight, and only then invokes the tool; a settled
    invocation populates the cache on success only.  A call that is not
    idempotent always invokes the tool. *)
Definition step (now : nat) (s : engine) (ev : event K V)
  : engine * option (served V) :=
  match ev with
  | Call k =>
      if idempotent k then
        match Get (cache s) k now with
        | (c, Some v) => (mkEngine c (inflight s) (upstream s), Some (FromCache v))
        | (c, None) =>
            if decide (k ∈ inflight s)
            then (mkEngine c (inflight s) (upstream s), Some Coalesced)
            else (mkEngine c ({[k]} ∪ inflight s) (upstream s ++ [(k, now)]),
                  Some Invoked)
        end
      else (mkEngine (cache s) (inflight s) (upstream s ++ [(k, now)]),
            Some Invoked)
  | Settle k r =>
      if idempotent k && bool_decide (k ∈ inflight s) then
        match r with
        | Success v =>
            (mkEngine (Put (cache s) k v (ttl k) now) (inflight s ∖ {[k]})
               (upstream s), None)
        | Failure =>
            (mkEngine (cache s) (inflight s ∖ {[k]}) (upstream s), None)
        end
      else (s, None)
  end.

(** A run over time-stamped events. *)
Fixpoint exec (s : engine) (trace : list (nat * event K V)) : engine :=
  match trace with
  | [] => s
  | (now, ev) :: rest => exec (fst (step now s ev)) rest
  end.

(** The number of upstream invocations of [k] so far. *)
Definition invocations (s : engine) (k : K) : nat :=
  length (filter (λ p, p.1 = k) (upstream s)).

(** [k] is covered up to [bound]: an invocation for it is in flight, or
    the cache holds an entry for it that lives at least until [bound]. *)
Definition covered (k : K) (bound : nat) (s : engine) : Prop :=
  k ∈ inflight s ∨ (∃ e, cache s !! k = Some e ∧ bound ≤ expires_at e).

(** [k] is cached until [expiry] and nothing is in flight for it. *)
Definition cached_until (k : K) (expiry : nat) (s : engine) : Prop :=
  (k ∉ inflight s) ∧ (∃ e, cache s !! k = Some e ∧ expires_at e = expiry).

End Engine.
End Engine.

(** ** The conversation memory *)
Module Memory.

Inductive Role := user | assistant.

(** A turn of 3.  [synthetic] marks the summary turn a compression pass
    writes; the trimming of [Window] tells summary turns from the others
    by it. *)
Record Turn := mkTurn {
  role : Role;
  content : string;
  timestamp : nat;
  synthetic : bool
}.

Section Memory.
(** main_sharebot.py, which holds the memory ([add_to_memory], the
    compression), is not among the sources; what follows is modelled from
    the specification.  [max_turns] is the configured bound,
    [content_cap] the cap on one turn's content (2000 characters),
    [summarize] the language-model call that condenses turns into one
    text and [budget] the token budget left for the window. *)
Variable max_turns : nat.
Variable content_cap : nat.
Variable summarize : list Turn -> string.
Variable budget : nat.


(** Modelled from the spec: [CompressIfNeeded] of 4.4 (main_sharebot.py
    is absent).  A pass is triggered when more than [2 * max_turns]
    turns are stored; the oldest half is replaced by one synthetic
    assistant turn and the most recent half is kept verbatim.  Of an odd
    number of turns the turn in the middle goes to the oldest half: at
    the trigger length [2 * max_turns + 1] that leaves the summary and
    [max_turns] turns, the length [max_turns + 1] of 3. *)
Definition CompressIfNeeded (now : nat) (mem : list Turn) : list Turn :=
  if decide (2 * max_turns < length mem) then
    let recent_half := length mem / 2 in
    let old := take (length mem - recent_half) mem in
    let recent := drop (length mem - recent_half) mem in
    mkTurn assistant (summarize old) now true :: recent
  else mem.

(** Modelled from the spec: the token estimate of 4.4 (main_sharebot.py
    is absent): the character count divided by four. *)
Definition tokens (turns : list Turn) : nat :=
  sum_list (String.length ∘ content <$> turns) / 4.

(** The turns without the oldest turn that is not a summary, if there
    is one. *)
Fixpoint trim_oldest (turns : list Turn) : option (list Turn) :=
  match turns with
  | [] => None
  | t :: rest =>
      if synthetic t then (λ rest', t :: rest') <$> trim_oldest rest
      else Some rest
  end.

Fixpoint trim_to_budget (fuel : nat) (turns : list Turn) : list Turn :=
  match fuel with
  | 0 => turns
  | S fuel' =>
      if decide (tokens turns ≤ budget) then turns
      else
        match trim_oldest turns with
        | Some turns' => trim_to_budget fuel' turns'
        | None => turns
        end
  end.

(** Modelled from the spec: [Window] of 4.4 (main_sharebot.py is
    absent): the stored turns, and when their token estimate exceeds
    the budget, the oldest turns that are not a summary trimmed first,
    until the rest fits.  The system instructions and the current query
    are not turns of the memory: the query is appended with its answer,
    at the end of the control flow of 2. *)
Definition Window (mem : list Turn) : list Turn :=
  trim_to_budget (length mem) mem.



End Memory.
End Memory.

(** ** The planner *)
Module Planner.

Record ToolSpec := mkToolSpec {
  name : string;
  required : list string;
  idempotent : bool;
  concurrency_safe : bool
}.

Inductive Origin := planner | fallback.

Record PlannedCall := mkPlannedCall {
  tool_name : string;
  input : list (string * string);
  origin : Origin
}.

(** The default of [max_retries]. *)
Definition default_max_retries : nat := 2.

(** [Plan]'s result: a plan or an error. *)
Inductive result :=
| Ok (plan : list PlannedCall)
| PlanningError (reason : string).

Section Planner.
(** share_agent.py ([plan_tools], [_extract_json], [_validate_tools]) is
    not among the sources; what follows is modelled from the
    specification.  [strategies] is the extraction cascade in its order
    (fenced block, bracket-delimited substring, whole response, line
    repair), each giving the calls it could read or nothing; [llm n p] is
    the model's reply to prompt [p] on its [n]-th planning call;
    [corrective] is the instruction appended on a retry. *)
Variable registry : list ToolSpec.
Variable strategies : list (string -> option (list PlannedCall)).
Variable llm : nat -> string -> string.
Variable corrective : string.
Variable max_retries : nat.

(** Modelled from the spec: the cascade of 4.1 ([_extract_json] is
    absent); the first strategy that produces output wins. *)
Fixpoint extract (ss : list (string -> option (list PlannedCall)))
  (response : string) : option (list PlannedCall) :=
  match ss with
  | [] => None
  | strategy :: rest =>
      match strategy response with
      | Some calls => Some calls
      | None => extract rest response
      end
  end.

(** Modelled from the spec: validation against the registry, 4.1
    ([_validate_tools] is absent): a call to an unknown tool, or one
    missing a required input field, is dropped. *)
Definition valid (c : PlannedCall) : bool :=
  match list_find (λ t, name t = tool_name c) registry with
  | Some (_, t) =>
      forallb (λ f, bool_decide (f ∈ (input c).*1)) (required t)
  | None => false
  end.

Definition validate (calls : list PlannedCall) : list PlannedCall :=
  filter (λ c, valid c = true) calls.

(** Modelled from the spec: the prompt of the [n]-th planning call, 4.1
    ([plan_tools] is absent): a retry has the corrective instruction
    appended. *)
Definition prompt_at (n : nat) (prompt : string) : string :=
  if decide (n = 0) then prompt else (prompt +:+ corrective).

(** Modelled from the spec: the planning call and its retries, 4.1
    ([plan_tools] is absent).  [retries] is the number of retries left,
    [n] the number of planning calls made so far; the result comes with
    the prompts sent, in order. *)
Fixpoint attempt (retries n : nat) (prompt : string)
  : list PlannedCall * list string :=
  let sent := prompt_at n prompt in
  match extract strategies (llm n sent) with
  | Some calls => (validate calls, [sent])
  | None =>
      match retries with
      | 0 => ([], [sent])
      | S retries' =>
          let '(plan, prompts) := attempt retries' (S n) prompt in
          (plan, sent :: prompts)
      end
  end.

(** Modelled from the spec: [Plan] of 4.1 ([plan_tools] is absent);
    an unparseable plan is the empty plan, not an error. *)
Definition Plan (prompt : string) : result :=
  Ok (attempt max_retries 0 prompt).1.

Definition prompts_sent (prompt : string) : list string :=
  (attempt max_retries 0 prompt).2.

End Planner.
End Planner.

(** ** The session store *)
Module Session.

Inductive Status := UNINITIALIZED | PENDING_LOGIN | ACTIVE | EXPIRED | INVALID.

(** The record of spec 3 and of the README's session.json. *)
Record SessionRecord := mkSessionRecord {
  user_id : string;
  provider : string;
  cookie : string;
  created_at : nat;
  last_validated_at : nat;
  status : Status;
  meta : list (string * string)
}.

(** store.py and manager.py are not among the sources; what follows is
    modelled from the specification. *)
Module KeyedStore.

(** Modelled from the spec: the state of a process using the store
    (store.py is absent): durable storage keyed by (user_id, provider),
    3 and 4.5, and the session the process has in memory. *)
Record Process := mkProcess {
  disk : gmap (string * string) SessionRecord;
  current : option SessionRecord
}.

(** A process on an empty store. *)
Definition start : Process := mkProcess ∅ None.

(** Modelled from the spec: [CompleteLogin]'s persisting of a record,
    4.5 (manager.py is absent): the record is stored under its own
    user_id and provider. *)
Definition save (p : Process) (r : SessionRecord) : Process :=
  mkProcess (<[(user_id r, provider r) := r]> (disk p)) (Some r).

(** Modelled from the spec: reading the record of a user and provider,
    as [GetActive] of 4.5 does first (manager.py is absent). *)
Definition load (p : Process) (user provider_ : string)
  : option SessionRecord :=
  disk p !! (user, provider_).

(** A restart loses the process's memory and keeps the storage. *)
Definition restart (p : Process) : Process := mkProcess (disk p) None.

(** What happens to a store: records are saved, by any user, and the
    process restarts. *)
Inductive Op :=
| Save (r : SessionRecord)
| Restart.

Definition step (p : Process) (op : Op) : Process :=
  match op with
  | Save r => save p r
  | Restart => restart p
  end.

Definition run (ops : list Op) : Process := foldl step start ops.




End KeyedStore.
End Session.

(** ** String conversion *)
Module Conv.
Import JS.

(** [parts.join(sep)] *)
Fixpoint join (sep : jsstring) (parts : list jsstring) : jsstring :=
  match parts with
  | [] => []
  | [p] => p
  | p :: rest => p ++ sep ++ join sep rest
  end.

Section ToString.
(** The platform's rendering of a number, [Number.prototype.toString]. *)
Variable Number_toString : float -> jsstring.

(** [String(v)], also what [s += v] and [new Error(v).message] use, on a
    value [JSON.parse] returned; [None] is the TypeError of a value that
    cannot be converted.  An array joins the conversions of its elements
    with commas, [null] elements as the empty string; an object is
    [[object Object]], unless it has an own [toString] property. *)
Fixpoint ToString (v : JValue) : option jsstring :=
  match v with
  | JNull => Some (lit "null")
  | JBool b => Some (if b then lit "true" else lit "false")
  | JNum x => Some (Number_toString x)
  | JStr s => Some s
  | JArr xs =>
      join (lit ",")
      <$> (fix elements (xs : list JValue) : option (list jsstring) :=
             match xs with
             | [] => Some []
             | x :: rest =>
                 match (match x with JNull => Some [] | _ => ToString x end),
                       elements rest with
                 | Some part, Some parts => Some (part :: parts)
                 | _, _ => None
                 end
             end) xs
  | JObj fields =>
      if has_own fields (lit "toString") then None
      else Some (lit "[object Object]")
  end.

Definition ToString_val (v : jsval) : option jsstring :=
  match v with
  | undefined => Some (lit "undefined")
  | val v => ToString v
  end.

End ToString.
End Conv.

(** ** The rest of the API client *)
Module ApiMore.
Import JS Api.

(** Whether the callback an event is a call of was supplied. *)
Definition supplied (cb : callbacks) (ev : event) : bool :=
  match ev with
  | OnChunk _ => onChunk cb
  | OnComplete => onComplete cb
  | OnError _ => onError cb
  end.

Definition all_supplied : callbacks := mkCallbacks true true true.

(** The callbacks with [onChunk] and [onComplete] supplied as well. *)
Definition with_both (cb : callbacks) : callbacks :=
  mkCallbacks true true (onError cb).

(** Calls of [onChunk] with truthy contents only. *)
Definition content_chunks (evs : list event) : Prop :=
  ∃ chunks,
    Forall (λ v, truthy v = true) chunks ∧ evs = OnChunk <$> chunks.

(** The three ways a run ends: the end-of-stream callback and a normal
    return; an error chunk handed to [onError] and a normal return; a
    caught error handed to [onError] and rethrown. *)
Definition ends_with (last_call : event) (res : outcome unit) : Prop :=
  (last_call = OnComplete ∧ res = Returns tt)
  ∨ (∃ v, truthy v = true ∧ convertible v = true
          ∧ last_call = OnError (ChunkError v) ∧ res = Returns tt)
  ∨ (∃ e, last_call = OnError (Caught e) ∧ res = Throws e).

Definition run_shape (run : list event * outcome unit) : Prop :=
  ∃ evs last_call,
    content_chunks evs ∧ run.1 = evs ++ [last_call]
    ∧ ends_with last_call run.2.

Section Client.
Variable JSON_parse : jsstring -> outcome JValue.
Variable fetch : Request -> outcome Response.

(** [portfolioChatbotSync(userQuery)] *)
Definition portfolioChatbotSync (userQuery : jsstring) : outcome JValue :=
  match fetch (mkRequest (lit "/portfolio_chatbot/sync") userQuery) with
  | Throws e => Throws e
  | Returns response =>
      if negb (ok response) then Throws (server_error response)
      else
        match json JSON_parse response with
        | Throws e => Throws e
        | Returns data =>
            if negb (truthy_value data) then Throws invalid_format
            else
              match get data f_response with
              | Some v =>
                  if is_string v then Returns data
                  else Throws invalid_format
              | None => Throws invalid_format
              end
        end
  end.

(** What the [fetch] of [generatePortfolioReport] resolves to: a POST to
    [/portfolio_report] with no body. *)
Variable report_reply : outcome Response.

(** [generatePortfolioReport()]: whatever the body parses to is
    returned. *)
Definition generatePortfolioReport : outcome JValue :=
  match report_reply with
  | Throws e => Throws e
  | Returns response =>
      if negb (ok response) then Throws (server_error response)
      else json JSON_parse response
  end.

End Client.
End ApiMore.

(** ** The portfolio chat page, with its stream callbacks *)
Module PortfolioPage.
Import JS Api Transcript Conv ApiMore.

Definition send_prefix : jsstring :=
  lit "Sorry, something went wrong while contacting the portfolio assistant. ".

Definition edit_prefix : jsstring := lit "Sorry, something went wrong. ".

Definition connected : jsstring :=
  lit "Portfolio connected! You can now ask questions about your holdings, P/L, and more.".

Definition not_connected : jsstring :=
  lit "Failed to connect to your portfolio. Please make sure you're logged in to Kite.".

(** [`${prefix}${message ? `(${message})` : ""}`] *)
Definition friendly (prefix message : jsstring) : jsstring :=
  prefix ++ (if nonempty message then lit "(" ++ message ++ lit ")" else []).

(** [m.role === "bot"] *)
Definition is_bot (m : Msg) : bool :=
  match role m with
  | Some bot => true
  | _ => false
  end.

(** [newMsgs[newMsgs.length - 1]] *)
Definition lastMsg (m : Msgs) : option Msg := mjoin (last m).

(** A handler's run: the page state and its local [botResponse]. *)
Record Run := mkRun {
  page : State;
  botResponse : jsstring
}.

Section Page.
Variable JSON_parse : jsstring -> outcome JValue.
Variable fetch : Request -> outcome Response.
Variable Number_toString : float -> jsstring.

(** [error.message] of what [onError] receives.  The stream function
    makes the error of a chunk only from a value that can be converted
    ([handle_line]); the message of any other is left empty here. *)
Definition error_message (e : stream_error) : jsstring :=
  match e with
  | ChunkError v => default [] (ToString_val Number_toString v)
  | Caught e => message e
  end.

(** The [onChunk] of [handleSend] and [handleEdit]: the chunk is added to
    [botResponse]; the last message, when it is a streaming bot message,
    gets the text so far, otherwise a streaming bot message is pushed.
    [botResponse += chunk] throws on a chunk that cannot be converted,
    before anything is assigned: then the call changes nothing (the
    stream function catches the error and goes on). *)
Definition onChunk_ (now : N) (r : Run) (chunk : jsval) : Run :=
  match ToString_val Number_toString chunk with
  | None => r
  | Some chunk_text =>
      let botResponse' := botResponse r ++ chunk_text in
      let m := msgs (page r) in
      let pushed := m ++ [Some (mkMsg (Some bot) botResponse' now true)] in
      let newMsgs :=
        match lastMsg m with
        | Some l =>
            if is_bot l && streaming l
            then <[length m - 1 :=
                     Some (mkMsg (role l) botResponse' (timestamp l)
                             (streaming l))]> m
            else pushed
        | None => pushed
        end in
      mkRun (mkState newMsgs (loading (page r))) botResponse'
  end.

(** The position, among the calls of [onChunk], of the first chunk that
    can be converted. *)
Definition first_convertible (chunks : list jsval) : option nat :=
  fst <$> list_find (λ chunk, convertible chunk = true) chunks.

(** The bot message a run of chunks leaves in the transcript: none when
    no chunk could be converted, else one message with the texts of the
    chunks that could in a row, stamped at the call that pushed it;
    [clock n] is the time of the [n]-th call. *)
Definition streamed (chunks : list jsval) (clock : nat -> N) (flag : bool)
  : Msgs :=
  match first_convertible chunks with
  | None => []
  | Some n =>
      [Some (mkMsg (Some bot)
               (concat (omap (ToString_val Number_toString) chunks))
               (clock n) flag)]
  end.

(** The [onComplete]: loading off, and the streaming flag of the last
    message deleted. *)
Definition onComplete_ (r : Run) : Run :=
  let m := msgs (page r) in
  let newMsgs :=
    match lastMsg m with
    | Some l =>
        if streaming l
        then <[length m - 1 := Some (mkMsg (role l) (text l) (timestamp l) false)]> m
        else m
    | None => m
    end in
  mkRun (mkState newMsgs false) (botResponse r).

(** The [onError]: loading off, and the friendly sentence pushed. *)
Definition onError_ (prefix : jsstring) (now : N) (r : Run)
  (e : stream_error) : Run :=
  mkRun
    (push (setLoading (page r) false)
       (mkMsg (Some bot) (friendly prefix (error_message e)) now false))
    (botResponse r).

Definition callback (prefix : jsstring) (now : N) (r : Run) (ev : event)
  : Run :=
  match ev with
  | OnChunk chunk => onChunk_ now r chunk
  | OnComplete => onComplete_ r
  | OnError e => onError_ prefix now r e
  end.

(** The callbacks run in the order the stream function calls them;
    [clock n] is the [new Date()] of the [n]-th call. *)
Fixpoint play (prefix : jsstring) (clock : nat -> N) (n : nat)
  (evs : list event) (r : Run) : Run :=
  match evs with
  | [] => r
  | ev :: rest => play prefix clock (S n) rest (callback prefix (clock n) r ev)
  end.

(** [try { await portfolioChatbotStream(query, ...) } catch (e) { ... }],
    common to both handlers: the catch switches loading off and pushes
    the friendly sentence. *)
Definition stream_reply (prefix : jsstring) (st : State) (query : jsstring)
  (clock : nat -> N) (t_catch : N) : State :=
  let '(evs, res) :=
    portfolioChatbotStream JSON_parse fetch all_supplied query in
  let r := play prefix clock 0 evs (mkRun st []) in
  match res with
  | Returns _ => page r
  | Throws e =>
      push (setLoading (page r) false)
        (mkMsg (Some bot) (friendly prefix (message e)) t_catch false)
  end.

(** [handleSend(q)] *)
Definition handleSend (st : State) (q : jsstring) (t_user : N)
  (clock : nat -> N) (t_catch : N) : State :=
  stream_reply send_prefix
    (setLoading (push st (mkMsg (Some user) q t_user false)) true)
    q clock t_catch.

(** [handleEdit(index, newText)] *)
Definition handleEdit (st : State) (index : nat) (newText : jsstring)
  (t_edit : N) (clock : nat -> N) (t_catch : N) : State :=
  stream_reply edit_prefix
    (PortfolioChat.handleEdit_begin st index newText t_edit)
    newText clock t_catch.

(** The page state the initialisation works on. *)
Record Connection := mkConnection {
  chat : State;
  initializing : bool;
  authError : option jsstring
}.

(** The callbacks of [initializePortfolio]: chunks are ignored. *)
Definition init_callback (now : N) (c : Connection) (ev : event)
  : Connection :=
  match ev with
  | OnChunk _ => c
  | OnComplete =>
      mkConnection (push (chat c) (mkMsg (Some bot) connected now false))
        false (authError c)
  | OnError e =>
      mkConnection (push (chat c) (mkMsg (Some bot) not_connected now false))
        false (Some (error_message e))
  end.

Fixpoint init_play (clock : nat -> N) (n : nat) (evs : list event)
  (c : Connection) : Connection :=
  match evs with
  | [] => c
  | ev :: rest => init_play clock (S n) rest (init_callback (clock n) c ev)
  end.

(** [initializePortfolio()] *)
Definition initializePortfolio (c : Connection) (clock : nat -> N)
  : Connection :=
  let '(evs, res) :=
    portfolioChatbotStream JSON_parse fetch all_supplied (lit "initialize") in
  let c' := init_play clock 0 evs (mkConnection (chat c) true None) in
  match res with
  | Returns _ => c'
  | Throws e => mkConnection (chat c') false (Some (message e))
  end.

(** [{authError && <span>(Authentication required)</span>}] *)
Definition auth_required_shown (c : Connection) : bool :=
  match authError c with
  | Some m => nonempty m
  | None => false
  end.

End Page.
End PortfolioPage.

(** ** The reports page *)
Module Reports.
Import JS Api ApiMore.

(** [reportStatus] and [error] are [null] ([JNull], [None]) or set. *)
Record State := mkState {
  loading : bool;
  reportStatus : JValue;
  error : option jsstring
}.

Section Page.
Variable JSON_parse : jsstring -> outcome JValue.
Variable report_reply : outcome Response.

(** [run()] up to its [await]. *)
Definition run_begin (st : State) : State := mkState true JNull None.

(** [run()] *)
Definition run (st : State) : State :=
  match generatePortfolioReport JSON_parse report_reply with
  | Returns result => mkState false result None
  | Throws err =>
      mkState false JNull
        (Some (if nonempty (message err) then message err
               else lit "Failed to generate report"))
  end.

End Page.

(** [reportStatus.message]; read only off a truthy [reportStatus].
    Booleans, numbers, strings and arrays have no such property. *)
Definition message_of (reportStatus : JValue) : jsval :=
  match reportStatus with
  | JObj fields => own_property fields (lit "message")
  | _ => undefined
  end.

(** Whether React accepts a value as a child: text and numbers are
    shown, [null] and booleans show nothing, an array shows its
    elements, and an object makes the render throw. *)
Fixpoint renderable (v : JValue) : bool :=
  match v with
  | JNull | JBool _ | JNum _ | JStr _ => true
  | JArr xs => forallb renderable xs
  | JObj _ => false
  end.

(** The child [{reportStatus.message || "Portfolio report ..."}] of the
    success panel can be rendered. *)
Definition message_renders (reportStatus : JValue) : bool :=
  match message_of reportStatus with
  | undefined => true
  | val m => if truthy_value m then renderable m else true
  end.

(** The render throws: the success panel is due and its message cannot
    be rendered.  No error boundary is around the page, so React then
    unmounts the whole tree and nothing is shown. *)
Definition crashes (st : State) : bool :=
  truthy_value (reportStatus st) && negb (message_renders (reportStatus st)).

(** The three panels of the page: [{error && ...}],
    [{reportStatus && ...}] and
    [{!reportStatus && !error && !loading && ...}]. *)
Definition error_panel (st : State) : bool :=
  negb (crashes st)
  && match error st with
     | Some m => nonempty m
     | None => false
     end.

Definition success_panel (st : State) : bool :=
  negb (crashes st) && truthy_value (reportStatus st).

Definition ready_panel (st : State) : bool :=
  negb (crashes st)
  && negb (truthy_value (reportStatus st))
  && negb match error st with
          | Some m => nonempty m
          | None => false
          end
  && negb (loading st).

End Reports.

(** ** A chat message's edit box and feedback buttons *)
Module ChatMessage.
Import JS.

(** The component's state; [text] is a prop. *)
Record State := mkState {
  isEditing : bool;
  editText : jsstring
}.

(** [handleSaveEdit()]: the argument [onEdit] is called with, if it is
    called, and the state afterwards. *)
Definition handleSaveEdit (text : jsstring) (st : State)
  : option jsstring * State :=
  (if decide (trim (editText st) = text) then None else Some (editText st),
   mkState false (editText st)).

Definition handleCancelEdit (text : jsstring) (st : State) : State :=
  mkState false text.

Inductive Feedback := up | down.

(** [setFeedback((prev) => (prev === type ? null : type))] *)
Definition handleFeedback (prev : option Feedback) (type : Feedback)
  : option Feedback :=
  match prev, type with
  | Some up, up | Some down, down => None
  | _, _ => Some type
  end.

End ChatMessage.

(** ** Signing in, and what depends on the user *)
Module Auth.
Import JS.

(** The user object [login] makes: [{ email }]. *)
Record User := mkUser { email : jsstring }.

Definition login (email : jsstring) : option User := Some (mkUser email).

Definition logout : option User := None.

(** What a page does on render. *)
Inductive view :=
| Navigate (to : jsstring)
| Render.

(** The login page: [if (user) return <Navigate to="/chat" replace />]. *)
Definition Login_view (user : option User) : view :=
  match user with
  | Some _ => Navigate (lit "/chat")
  | None => Render
  end.

(** The chat, portfolio and report pages:
    [if (!user) return <Navigate to="/login" replace />]. *)
Definition page_view (user : option User) : view :=
  match user with
  | Some _ => Render
  | None => Navigate (lit "/login")
  end.

(** [submit] of the login page, with the [email] and [pwd] state: the
    user after it and where it navigates. *)
Definition Login_submit (email pwd : jsstring) : option User * jsstring :=
  (login (if nonempty email then email else lit "user@example.com"),
   lit "/chat").

(** The sidebar's
    [user?.name || user?.email?.split("@")[0] || "User"]; a user object
    has no [name]. *)
Definition displayName (user : option User) : jsstring :=
  match user with
  | Some u =>
      match head (split 64 (email u)) with
      | Some local => if nonempty local then local else lit "User"
      | None => lit "User"
      end
  | None => lit "User"
  end.

End Auth.

(** ** Sample inputs *)
Module Sample.
Import JS Transcript.

(** A double quote. *)
Definition dq : jsstring := [34%N].

Definition json_blank : jsstring :=
  lit "{" ++ dq ++ lit "response" ++ dq ++ lit ":" ++ dq ++ lit "   " ++ dq ++ lit "}".

Definition json_nifty : jsstring :=
  lit "{" ++ dq ++ lit "response" ++ dq ++ lit ":" ++ dq ++ lit "Nifty is up." ++ dq ++ lit "}".

Definition json_hi : jsstring :=
  lit "{" ++ dq ++ lit "content" ++ dq ++ lit ":" ++ dq ++ lit "Hi" ++ dq ++ lit "}".

Definition json_there : jsstring :=
  lit "{" ++ dq ++ lit "content" ++ dq ++ lit ":" ++ dq ++ lit " there" ++ dq ++ lit "}".

Definition json_done : jsstring :=
  lit "{" ++ dq ++ lit "done" ++ dq ++ lit ":true}".

Definition json_error : jsstring :=
  lit "{" ++ dq ++ lit "error" ++ dq ++ lit ":" ++ dq ++ lit "Kite login required" ++ dq ++ lit "}".

(** A few JSON texts with the values [JSON.parse] gives for them. *)
Definition json_texts : list (jsstring * JValue) :=
  [ (lit "{}", JObj []);
    (lit "null", JNull);
    (json_blank, JObj [(lit "response", JStr (lit "   "))]);
    (json_nifty, JObj [(lit "response", JStr (lit "Nifty is up."))]);
    (json_hi, JObj [(lit "content", JStr (lit "Hi"))]);
    (json_there, JObj [(lit "content", JStr (lit " there"))]);
    (json_done, JObj [(lit "done", JBool true)]);
    (json_error, JObj [(lit "error", JStr (lit "Kite login required"))]) ].

(** [JSON.parse] on those texts; any other text is taken as malformed. *)
Definition parse (s : jsstring) : outcome JValue :=
  match list_find (λ p, p.1 = s) json_texts with
  | Some (_, (_, v)) => Returns v
  | None => Throws (Error (lit "Unexpected token"))
  end.

(** A server that answers every request with the same response. *)
Definition always (r : Response) (_ : Request) : outcome Response := Returns r.

Definition reply_500 : Response :=
  mkResponse false 500
    (Returns (lit "Internal Server Error: KeyError user_query")) [].


Definition reply_blank : Response :=
  mkResponse true 200
    (Returns json_blank) [].

Definition reply_nifty : Response :=
  mkResponse true 200
    (Returns json_nifty) [].

(** A stream: two content chunks, the second split over two reads, the
    end-of-stream marker, and a content chunk after it. *)
Definition nl : jsstring := [10%N].

Definition reply_stream : Response :=
  mkResponse true 200 (Returns [])
    [ Returns (lit "data: " ++ json_hi ++ nl ++ nl ++ lit "data: " ++ take 9 json_there);
      Returns (drop 9 json_there ++ nl ++ nl ++ lit "data: " ++ json_done ++ nl
               ++ lit "data: " ++ json_hi ++ nl);
      Returns (lit "data: " ++ json_hi ++ nl) ].

(** A stream that reports an error after one content chunk. *)
Definition reply_stream_error : Response :=
  mkResponse true 200 (Returns [])
    [ Returns (lit "data: " ++ json_hi ++ nl ++ lit "data: " ++ json_error ++ nl
               ++ lit "data: " ++ json_there ++ nl) ].

Definition all_callbacks : Api.callbacks := Api.mkCallbacks true true true.

Definition transcript3 : Msgs :=
  [ Some (mkMsg (Some bot) (lit "Hi! Ask me anything about market conditions.") 1 false);
    Some (mkMsg (Some user) (lit "price of TCS") 2 false);
    Some (mkMsg (Some bot) (lit "TCS trades at 3500.") 3 false) ].

End Sample.

(** ** Sample inputs for the back end *)
Module SampleBackend.

(** Fifteen turns, user and assistant in alternation. *)
Definition turns15 : list Memory.Turn :=
  (λ i, Memory.mkTurn (if Nat.even i then Memory.user else Memory.assistant)
          "What is the price of TCS?" i false) <$> seq 0 15.

Definition summary (_ : list Memory.Turn) : string :=
  "Summary of the earlier conversation.".

(** A model that never produces a plan, and one that does so on its
    second call. *)
Definition llm_prose (_ : nat) (_ : string) : string :=
  "I am not sure which tool to use.".

Definition llm_second_time (n : nat) (_ : string) : string :=
  if decide (n = 1) then "[]" else "I am not sure which tool to use.".

(** A model that would produce a plan on its fourth call only. *)
Definition llm_late (n : nat) (_ : string) : string :=
  if decide (n = 3) then "[]" else "I am not sure which tool to use.".

(** An extraction cascade: each strategy reads the empty plan off the
    text that spells it and fails on every other text. *)
Definition fenced_block (response : string) : option (list Planner.PlannedCall) :=
  if decide (response = "```json[]```") then Some [] else None.

Definition whole_response (response : string) : option (list Planner.PlannedCall) :=
  if decide (response = "[]") then Some [] else None.

Definition cascade : list (string -> option (list Planner.PlannedCall)) :=
  [fenced_block; whole_response].

Definition registry : list Planner.ToolSpec :=
  [ Planner.mkToolSpec "get_stock_data" ["symbol"] true true;
    Planner.mkToolSpec "get_financial_insights" ["query"] true true ].

(** Every tool idempotent, sixty seconds to live, results as text. *)
Definition all_idempotent (_ : string) : bool := true.

Definition sixty (_ : string) : nat := 60.

(** The fingerprint of the call "price of TCS". *)
Definition tcs : string := "get_stock_data|symbol=TCS".

Definition alice : Session.SessionRecord :=
  Session.mkSessionRecord "alice" "kite" "session_id=a1" 10 10 Session.ACTIVE [].

Definition bob : Session.SessionRecord :=
  Session.mkSessionRecord "bob" "kite" "session_id=b2" 20 20 Session.ACTIVE [].

End SampleBackend.

(** ** Sample inputs of the portfolio page *)
Module SampleMore.
Import JS.

(** A stand-in for the text of a number; no sample chunk is a number. *)
Definition number_text (_ : float) : jsstring := lit "0".

(** A clock that advances by one with every callback. *)
Definition tick (n : nat) : N := 10 + N.of_nat n.

(** Reads of a stream whose last line is not terminated. *)
Definition reads_open : list (outcome jsstring) :=
  [ Returns (lit "data: " ++ Sample.json_hi ++ Sample.nl) ].

Definition open_tail : jsstring := lit "data: " ++ Sample.json_there.

(** Chunks whose error or content is an object with an own [toString]
    property, which cannot be converted to a string. *)
Definition no_text : JValue := JObj [(lit "toString", JNull)].

Definition json_odd_error : jsstring :=
  lit "{" ++ Sample.dq ++ lit "error" ++ Sample.dq ++ lit ":{" ++ Sample.dq
  ++ lit "toString" ++ Sample.dq ++ lit ":null}}".

Definition json_odd_content : jsstring :=
  lit "{" ++ Sample.dq ++ lit "content" ++ Sample.dq ++ lit ":{" ++ Sample.dq
  ++ lit "toString" ++ Sample.dq ++ lit ":null}}".

Definition json_texts : list (jsstring * JValue) :=
  [ (json_odd_error, JObj [(lit "error", no_text)]);
    (json_odd_content, JObj [(lit "content", no_text)]) ]
  ++ Sample.json_texts.

(** [JSON.parse] on the sample texts; any other text is taken as
    malformed. *)
Definition parse (s : jsstring) : outcome JValue :=
  match list_find (λ p, p.1 = s) json_texts with
  | Some (_, (_, v)) => Returns v
  | None => Throws (Error (lit "Unexpected token"))
  end.


(** A stream with a content chunk that cannot be converted between two
    that can, ended by the end-of-stream marker. *)
Definition reply_odd_content : Response :=
  mkResponse true 200 (Returns [])
    [ Returns (lit "data: " ++ json_odd_content ++ Sample.nl
               ++ lit "data: " ++ Sample.json_hi ++ Sample.nl
               ++ lit "data: " ++ json_odd_content ++ Sample.nl
               ++ lit "data: " ++ Sample.json_there ++ Sample.nl
               ++ lit "data: " ++ Sample.json_done ++ Sample.nl) ].

(** The same, ended by an error chunk. *)
Definition reply_odd_content_error : Response :=
  mkResponse true 200 (Returns [])
    [ Returns (lit "data: " ++ json_odd_content ++ Sample.nl
               ++ lit "data: " ++ Sample.json_hi ++ Sample.nl
               ++ lit "data: " ++ Sample.json_error ++ Sample.nl) ].

(** A report whose message is an object, and one with a text. *)
Definition report_odd : JValue :=
  JObj [(lit "status", JStr (lit "ok")); (lit "message", JObj [])].

Definition report_sent : JValue :=
  JObj [(lit "status", JStr (lit "ok"));
        (lit "message", JStr (lit "Report emailed."))].

End SampleMore.

(* ------------------------------------------------------------------ *)
(** * Part II: what the program does                                   *)
(* ------------------------------------------------------------------ *)

(** ** Strings *)
Section StringFacts.
Import JS.

Lemma nonempty_true (s : jsstring) : nonempty s = true ↔ s ≠ [].
Proof. destruct s; simpl; split; congruence. Qed.

Lemma nonempty_false (s : jsstring) : nonempty s = false ↔ s = [].
Proof. destruct s; simpl; split; congruence. Qed.

Lemma trimStart_nil_iff (s : jsstring) :
  trimStart s = [] ↔ forallb is_white_space s = true.
Proof.
  induction s as [|c s IH]; simpl; [done|].
  destruct (is_white_space c); simpl; [exact IH|].
  split; congruence.
Qed.

Lemma forallb_reverse_ws (s : jsstring) :
  forallb is_white_space (reverse s) = forallb is_white_space s.
Proof.
  induction s as [|c s IH]; simpl; [done|].
  rewrite reverse_cons, forallb_app, IH. simpl.
  rewrite andb_true_r. apply andb_comm.
Qed.

Lemma trimStart_head (s : jsstring) c r :
  trimStart s = c :: r → is_white_space c = false.
Proof.
  induction s as [|d s IH]; simpl; [done|].
  destruct (is_white_space d) eqn:E; [exact IH|].
  intros [= <- _]. done.
Qed.

(** [trim] leaves nothing exactly when the string is white space only. *)
Lemma trim_nil_iff (s : jsstring) :
  trim s = [] ↔ forallb is_white_space s = true.
Proof.
  unfold trim, trimEnd. split.
  - intros E. apply (f_equal reverse) in E.
    rewrite reverse_involutive, reverse_nil in E.
    apply trimStart_nil_iff in E. rewrite forallb_reverse_ws in E.
    destruct (trimStart s) as [|c r] eqn:Es.
    + by apply trimStart_nil_iff.
    + apply trimStart_head in Es. simpl in E. by rewrite Es in E.
  - intros E. apply trimStart_nil_iff in E. rewrite E. done.
Qed.

Lemma trim_nonempty_source (s : jsstring) :
  nonempty (trim s) = true → nonempty s = true.
Proof.
  destruct s; [|done]. done.
Qed.

End StringFacts.

(** ** The chat input *)
Section ChatInputFacts.
Import JS ChatInput.

Lemma submit_sent (text : jsstring) (loading : bool) (t : jsstring) :
  sent (submit text loading) = Some t ↔
  t = trim text ∧ trim text ≠ [] ∧ loading = false.
Proof.
  unfold submit.
  destruct (nonempty (trim text)) eqn:E, loading; simpl.
  - split; [done|]. by intros (_ & _ & ?).
  - apply nonempty_true in E. split; [by intros [= <-]|].
    by intros (-> & _ & _).
  - split; [done|]. by intros (_ & _ & ?).
  - apply nonempty_false in E. split; [done|]. by intros (_ & ? & _).
Qed.

Lemma submit_text_after (text : jsstring) (loading : bool) :
  text_after (submit text loading)
  = match sent (submit text loading) with Some _ => [] | None => text end.
Proof.
  unfold submit. by destruct (nonempty (trim text)), loading.
Qed.

(** C10. A submission of the chat input, by the button or by the Enter
    key, calls onSend exactly when the trimmed text is not empty and
    loading is false; the argument is the trimmed text; the field is
    emptied after a send and left alone otherwise; text of white space
    only is never sent. *)
Theorem submit_sends_trimmed_text (text : JS.jsstring) (loading : bool) :
  (∀ t, sent (submit text loading) = Some t ↔
        t = trim text ∧ trim text ≠ [] ∧ loading = false)
  ∧ text_after (submit text loading)
    = match sent (submit text loading) with Some _ => [] | None => text end
  ∧ (forallb is_white_space text = true → sent (submit text loading) = None)
  ∧ handleKeyDown (mkKeyEvent (lit "Enter") false) text loading
    = submit text loading
  ∧ (∀ e, sent (handleKeyDown e text loading) = None
          ∨ handleKeyDown e text loading = submit text loading).
Proof.
  split; [intros t; apply submit_sent|].
  split; [apply submit_text_after|].
  split.
  - intros W%trim_nil_iff.
    destruct (sent (submit text loading)) as [t|] eqn:E; [|done].
    apply submit_sent in E as (_ & ? & _). done.
  - split; [done|]. intros e. unfold handleKeyDown.
    destruct (bool_decide _ && negb _); [by right|by left].
Qed.

End ChatInputFacts.

(** ** The synchronous query *)
Section SyncFacts.
Import JS Api.
Variable JSON_parse : jsstring -> outcome JValue.
Variable fetch : Request -> outcome Response.

Lemma is_string_inv (v : jsval) :
  is_string v = true ↔ ∃ s, v = val (JStr s).
Proof.
  split.
  - destruct v as [|[]]; simpl; try done. eauto.
  - by intros [s ->].
Qed.

(** A value with a string [response] property is an object, so truthy. *)
Lemma string_response_truthy (data : JValue) (s : jsstring) :
  get data f_response = Some (val (JStr s)) → truthy_value data = true.
Proof. by destruct data. Qed.

Lemma marketChatbotSync_returns (q : jsstring) (data : JValue) :
  marketChatbotSync JSON_parse fetch q = Returns data ↔
  ∃ response s,
    fetch (mkRequest (lit "/market_chatbot/sync") q) = Returns response
    ∧ ok response = true
    ∧ json JSON_parse response = Returns data
    ∧ get data f_response = Some (val (JStr s)).
Proof.
  unfold marketChatbotSync. split.
  - destruct (fetch _) as [response|e]; [|done].
    destruct (ok response) eqn:Hok; simpl; [|done].
    destruct (json JSON_parse response) as [d|e] eqn:Hj; [|done].
    destruct (truthy_value d) eqn:Ht; simpl; [|done].
    destruct (get d f_response) as [v|] eqn:Hg; [|done].
    destruct (is_string v) eqn:Hs; [|done].
    intros [= ->]. apply is_string_inv in Hs as [s ->]. eauto 10.
  - intros (response & s & -> & Hok & -> & Hg). rewrite Hok. simpl.
    rewrite (string_response_truthy _ _ Hg), Hg. done.
Qed.

(** C7. [marketChatbotSync] returns the parsed object exactly when the
    reply is ok and its parsed body has a string response property, and
    what it returns is that object; in every other case it throws. *)
Theorem marketChatbotSync_returns_iff (q : JS.jsstring) :
  (∀ data, marketChatbotSync JSON_parse fetch q = Returns data ↔
     ∃ response s,
       fetch (mkRequest (lit "/market_chatbot/sync") q) = Returns response
       ∧ ok response = true
       ∧ json JSON_parse response = Returns data
       ∧ get data f_response = Some (val (JStr s)))
  ∧ ((¬ ∃ data response s,
         fetch (mkRequest (lit "/market_chatbot/sync") q) = Returns response
         ∧ ok response = true
         ∧ json JSON_parse response = Returns data
         ∧ get data f_response = Some (val (JStr s))) ↔
       ∃ e, marketChatbotSync JSON_parse fetch q = Throws e).
Proof.
  split; [intros data; apply marketChatbotSync_returns|].
  split.
  - intros N.
    destruct (marketChatbotSync JSON_parse fetch q) as [d|e] eqn:E; [|eauto].
    destruct N. exists d. by apply marketChatbotSync_returns.
  - intros [e E] (d & A). apply marketChatbotSync_returns in A. congruence.
Qed.

(** The two ways a reply is refused: not ok, and no string response. *)
Lemma marketChatbotSync_not_ok (q : jsstring) (response : Response) :
  fetch (mkRequest (lit "/market_chatbot/sync") q) = Returns response →
  ok response = false →
  marketChatbotSync JSON_parse fetch q = Throws (server_error response).
Proof. unfold marketChatbotSync. by intros -> ->. Qed.


End SyncFacts.

(** ** Editing a message *)
Section EditFacts.
Import JS Transcript.

Lemma edited_in_range (msgs : Msgs) (i : nat) (m : Msg) newText now :
  msgs !! i = Some (Some m) →
  edited msgs i newText now
  = take i msgs ++ [Some (mkMsg (role m) newText now (streaming m))].
Proof.
  intros Hi. unfold edited, assign.
  replace (i + 1) with (S i) by lia.
  rewrite (take_S_r _ _ _ Hi).
  assert (length (take i msgs) = i) as Hlen.
  { apply lookup_lt_Some in Hi. rewrite length_take. lia. }
  rewrite lookup_app_r, Hlen, Nat.sub_diag by lia. simpl.
  rewrite decide_True by (rewrite length_app, Hlen; simpl; lia).
  rewrite insert_app_r_alt, Hlen, Nat.sub_diag by lia. done.
Qed.

(** Out of range the assignment grows the array: the new object has the
    edited text and no role. *)
Lemma edited_out_of_range (msgs : Msgs) (i : nat) newText now :
  length msgs ≤ i →
  edited msgs i newText now
  = msgs ++ replicate (i - length msgs) None ++ [Some (mkMsg None newText now false)].
Proof.
  intros Hi. unfold edited, assign.
  rewrite take_ge by lia.
  rewrite decide_False by lia.
  rewrite (lookup_ge_None_2 msgs i) by lia. done.
Qed.

(** C8. Editing the message at index [i] truncates the transcript to its
    first [i + 1] messages before the query is sent again: the messages
    before [i] are unchanged, the one at [i] keeps its role and gets the
    edited text and a fresh time stamp, and nothing is left after [i];
    this holds on both pages, and the market page then sends the edited
    text from that state. *)
Theorem handleEdit_truncates_transcript
  (JSON_parse : JS.jsstring -> JS.outcome JS.JValue)
  (fetch : JS.Request -> JS.outcome JS.Response)
  (st : State) (i : nat) (m : Msg) (newText : JS.jsstring) (now t_bot : N) :
  msgs st !! i = Some (Some m) →
  let st' := MarketChat.handleEdit_begin st i newText now in
  length (msgs st') = i + 1
  ∧ (∀ j, j < i → msgs st' !! j = msgs st !! j)
  ∧ msgs st' !! i = Some (Some (mkMsg (role m) newText now (streaming m)))
  ∧ (∀ j, i < j → msgs st' !! j = None)
  ∧ PortfolioChat.handleEdit_begin st i newText now = st'
  ∧ MarketChat.handleEdit JSON_parse fetch st i newText now t_bot
    = MarketChat.reply JSON_parse fetch st' newText t_bot.
Proof.
  intros Hi st'. subst st'. unfold MarketChat.handleEdit_begin. simpl.
  rewrite (edited_in_range _ _ _ _ _ Hi).
  assert (length (take i (msgs st)) = i) as Hlen.
  { apply lookup_lt_Some in Hi. rewrite length_take. lia. }
  split; [rewrite length_app, Hlen; simpl; lia|].
  split.
  { intros j Hj. rewrite lookup_app_l by lia. by apply lookup_take_lt. }
  split.
  { rewrite lookup_app_r, Hlen, Nat.sub_diag by lia. done. }
  split.
  { intros j Hj. apply lookup_ge_None_2.
    rewrite length_app, Hlen. simpl. lia. }
  split.
  - unfold PortfolioChat.handleEdit_begin.
    by rewrite (edited_in_range _ _ _ _ _ Hi).
  - unfold MarketChat.handleEdit, MarketChat.handleEdit_begin.
    by rewrite (edited_in_range _ _ _ _ _ Hi).
Qed.

End EditFacts.

(** C8 at the sample transcript: the user message at index 1 is edited. *)
Lemma handleEdit_truncates_transcript_witness :
  Sample.transcript3 !! 1
  = Some (Some (Transcript.mkMsg (Some Transcript.user) (JS.lit "price of TCS") 2 false))
  ∧ let st' :=
      MarketChat.handleEdit_begin (Transcript.mkState Sample.transcript3 false)
        1 (JS.lit "price of INFY") 7 in
    length (Transcript.msgs st') = 1 + 1
    ∧ Transcript.msgs st' !! 1
      = Some (Some (Transcript.mkMsg (Some Transcript.user) (JS.lit "price of INFY") 7 false)).
Proof.
  split; [reflexivity|].
  pose proof (handleEdit_truncates_transcript Sample.parse
                (Sample.always Sample.reply_nifty)
                (Transcript.mkState Sample.transcript3 false) 1
                (Transcript.mkMsg (Some Transcript.user) (JS.lit "price of TCS") 2 false)
                (JS.lit "price of INFY") 7 8 eq_refl) as (Hlen & _ & Hi & _).
  split; [exact Hlen|exact Hi].
Defined.

(** ** The market chat page *)
Section MarketFacts.
Import JS Api Transcript MarketChat.
Variable JSON_parse : jsstring -> outcome JValue.
Variable fetch : Request -> outcome Response.

Lemma fallback_nonempty : fallback ≠ [].
Proof. done. Qed.

Lemma friendly_nonempty (e : exn) : friendly e ≠ [].
Proof. done. Qed.

Lemma botReply_nonempty (data : JValue) : botReply data ≠ [].
Proof.
  unfold botReply. destruct (truthy_value data); [|done].
  destruct (get data f_response) as [[|[]]|]; try done.
  destruct (nonempty (trim s)) eqn:E; [|done].
  by apply nonempty_true, trim_nonempty_source.
Qed.



Lemma reply_msgs (st : State) (query : jsstring) (now : N) :
  msgs (reply JSON_parse fetch st query now)
  = msgs st
    ++ [Some (mkMsg (Some bot) (reply_text JSON_parse fetch query) now false)].
Proof. done. Qed.

Lemma handleSend_msgs (st : State) (q : jsstring) (t_user t_bot : N) :
  msgs (handleSend JSON_parse fetch st q t_user t_bot)
  = msgs st ++ [Some (mkMsg (Some user) q t_user false);
                Some (mkMsg (Some bot) (reply_text JSON_parse fetch q) t_bot false)].
Proof.
  unfold handleSend. rewrite reply_msgs. simpl. by rewrite <- app_assoc.
Qed.


(** C2, as the code has it. When the synchronous query fails, the one bot
    message a handler pushes is the fixed friendly sentence followed by
    the error's message; for a reply that is not ok that message is
    "Server error", the status code and, when the body is not empty, a
    colon and the body as the server sent it. *)
Theorem failure_text_carries_error_message
  (st : State) (q : JS.jsstring) (t_user t_bot : N) (e : JS.exn) :
  marketChatbotSync JSON_parse fetch q = Throws e →
  last (msgs (handleSend JSON_parse fetch st q t_user t_bot))
  = Some (Some (mkMsg (Some bot) (friendly_prefix ++ message e) t_bot false))
  ∧ last (msgs (reply JSON_parse fetch st q t_bot))
    = Some (Some (mkMsg (Some bot) (friendly_prefix ++ message e) t_bot false))
  ∧ (∀ response,
       fetch (mkRequest (lit "/market_chatbot/sync") q) = Returns response →
       ok response = false →
       message e
       = lit "Server error " ++ decimal (status response)
         ++ match response_text response with
            | Returns body => if nonempty body then lit ": " ++ body else []
            | Throws _ => []
            end).
Proof.
  intros E.
  assert (reply_text JSON_parse fetch q = friendly_prefix ++ message e) as Ht.
  { unfold reply_text. by rewrite E. }
  split; [rewrite handleSend_msgs, Ht|split; [rewrite reply_msgs, Ht|]].
  - by rewrite (last_app_cons _ _ _), last_cons.
  - by rewrite last_snoc.
  - intros response Hf Hok.
    rewrite (marketChatbotSync_not_ok _ _ _ _ Hf Hok) in E.
    injection E as <-. simpl. by destruct (response_text response).
Qed.

End MarketFacts.

(** C2 as amended, at a reply with status 500. *)
Lemma failure_text_carries_error_message_witness :
  Api.marketChatbotSync Sample.parse (Sample.always Sample.reply_500)
    (JS.lit "nifty today")
  = JS.Throws (Api.server_error Sample.reply_500)
  ∧ last (Transcript.msgs
            (MarketChat.handleSend Sample.parse (Sample.always Sample.reply_500)
               (Transcript.mkState [] false) (JS.lit "nifty today") 1 2))
    = Some (Some (Transcript.mkMsg (Some Transcript.bot)
                    (MarketChat.friendly_prefix
                     ++ JS.message (Api.server_error Sample.reply_500))
                    2 false)).
Proof.
  split; [reflexivity|].
  apply (failure_text_carries_error_message Sample.parse
           (Sample.always Sample.reply_500) (Transcript.mkState [] false)
           (JS.lit "nifty today") 1 2 (Api.server_error Sample.reply_500)).
  reflexivity.
Defined.

(** Against C2 as stated: the server answers 500 with a body; the text
    pushed to the transcript holds the status code and the body. *)
Lemma friendly_text_shows_upstream_payload :
  let shown :=
    JS.lit "Sorry, something went wrong while contacting the market assistant. Server error 500: Internal Server Error: KeyError user_query" in
  last (Transcript.msgs
          (MarketChat.handleSend Sample.parse (Sample.always Sample.reply_500)
             (Transcript.mkState [] false) (JS.lit "nifty today") 1 2))
  = Some (Some (Transcript.mkMsg (Some Transcript.bot) shown 2 false))
  ∧ JS.includes (JS.decimal (JS.status Sample.reply_500)) shown = true
  ∧ JS.includes (JS.lit "Internal Server Error: KeyError user_query") shown
    = true
  ∧ JS.response_text Sample.reply_500
    = JS.Returns (JS.lit "Internal Server Error: KeyError user_query").
Proof. vm_compute. done. Qed.


(** A reply with a blank response does give the fallback sentence. *)
Example blank_response_shows_fallback :
  last (Transcript.msgs
          (MarketChat.handleSend Sample.parse (Sample.always Sample.reply_blank)
             (Transcript.mkState [] false) (JS.lit "nifty today") 1 2))
  = Some (Some (Transcript.mkMsg (Some Transcript.bot) MarketChat.fallback 2 false)).
Proof. vm_compute. done. Qed.

(** ** The streaming query *)
Section StreamFacts.
Import JS Api.
Variable JSON_parse : jsstring -> outcome JValue.
Variable fetch : Request -> outcome Response.
Variable cb : callbacks.
Hypothesis complete_supplied : onComplete cb = true.
Hypothesis error_supplied : onError cb = true.










End StreamFacts.

Section StreamClaim.
Import JS Api.
Variable JSON_parse : jsstring -> outcome JValue.
Variable fetch : Request -> outcome Response.
Variable cb : callbacks.


End StreamClaim.



(** An error chunk ends the stream: the chunk after it is not forwarded. *)
Example stream_error_chunk_stops :
  Api.portfolioChatbotStream Sample.parse
    (Sample.always Sample.reply_stream_error)
    Sample.all_callbacks (JS.lit "show my holdings")
  = ([Api.OnChunk (JS.val (JS.JStr (JS.lit "Hi")));
      Api.OnError (Api.ChunkError (JS.val (JS.JStr (JS.lit "Kite login required"))))],
     JS.Returns tt).
Proof. vm_compute. reflexivity. Qed.

(** A reply that is not ok calls onError once and rethrows. *)
Example stream_not_ok_rethrows :
  Api.portfolioChatbotStream Sample.parse (Sample.always Sample.reply_500)
    Sample.all_callbacks (JS.lit "show my holdings")
  = ([Api.OnError (Api.Caught (Api.server_error Sample.reply_500))],
     JS.Throws (Api.server_error Sample.reply_500)).
Proof. reflexivity. Qed.

(** ** The conversation memory *)
Section MemoryFacts.
Import Memory.
Variable max_turns : nat.
Variable content_cap : nat.
Variable summarize : list Turn -> string.
Variable budget : nat.














Lemma Window_fits (mem : list Turn) :
  tokens mem ≤ budget → Window budget mem = mem.
Proof.
  intros Hfit. unfold Window. destruct (length mem); simpl; [done|].
  by rewrite decide_True.
Qed.


End MemoryFacts.



(** A call after turns were appended without one: of eight turns with
    [max_turns = 2] the most recent half is kept, under one summary. *)
Example late_call_keeps_the_recent_half :
  length (Memory.CompressIfNeeded 2 SampleBackend.summary 99
            (take 8 SampleBackend.turns15)) = 5
  ∧ drop 1 (Memory.CompressIfNeeded 2 SampleBackend.summary 99
              (take 8 SampleBackend.turns15))
    = drop 4 (take 8 SampleBackend.turns15).
Proof. vm_compute. done. Qed.

(** ** The planner *)
Section PlannerFacts.
Import Planner.
Variable registry : list ToolSpec.
Variable strategies : list (string -> option (list PlannedCall)).
Variable llm : nat -> string -> string.
Variable corrective : string.

Lemma extract_None (ss : list (string -> option (list PlannedCall))) response :
  (∀ strategy, strategy ∈ ss → strategy response = None) →
  extract ss response = None.
Proof.
  induction ss as [|strategy ss IH]; intros Hall; simpl; [done|].
  rewrite (Hall strategy) by apply list_elem_of_here.
  apply IH. intros s' Hs'. apply Hall. by apply list_elem_of_further.
Qed.

(** The first strategy that reads a plan wins. *)
Lemma extract_first (ss1 ss2 : list (string -> option (list PlannedCall)))
  strategy response calls :
  (∀ s', s' ∈ ss1 → s' response = None) →
  strategy response = Some calls →
  extract (ss1 ++ strategy :: ss2) response = Some calls.
Proof.
  induction ss1 as [|s1 ss1 IH]; intros Hall Hs; simpl; [by rewrite Hs|].
  rewrite (Hall s1) by apply list_elem_of_here.
  apply IH; [|done]. intros s' Hs'. apply Hall. by apply list_elem_of_further.
Qed.

Lemma attempt_unparseable (retries n : nat) (prompt : string) :
  (∀ k, k ≤ retries →
        extract strategies (llm (n + k) (prompt_at corrective (n + k) prompt))
        = None) →
  attempt registry strategies llm corrective retries n prompt
  = ([], prompt_at corrective n prompt
         :: replicate retries (prompt +:+ corrective)).
Proof.
  revert n. induction retries as [|retries IH]; intros n Hfail; simpl.
  - specialize (Hfail 0). rewrite Nat.add_0_r in Hfail. by rewrite Hfail.
  - pose proof (Hfail 0) as H0. rewrite Nat.add_0_r in H0.
    rewrite H0 by lia. rewrite IH.
    + unfold prompt_at at 2. by rewrite decide_False by lia.
    + intros k Hk. replace (S n + k) with (n + S k) by lia.
      apply Hfail. lia.
Qed.

(** C6. When every extraction strategy fails on the model's reply at
    each of the [max_retries + 1] planning calls that are made, the
    first with the prompt and each retry with the corrective instruction
    appended, the planner makes exactly those calls and returns the
    empty plan, not an error; what the model would reply to a call that
    is never made plays no part.  The default of [max_retries] is 2. *)
Theorem Plan_unparseable_gives_empty_plan (max_retries : nat) (prompt : string) :
  (∀ n strategy,
     n ≤ max_retries → strategy ∈ strategies →
     strategy (llm n (prompt_at corrective n prompt)) = None) →
  Plan registry strategies llm corrective max_retries prompt = Ok []
  ∧ prompts_sent registry strategies llm corrective max_retries prompt
    = prompt :: replicate max_retries (prompt +:+ corrective)
  ∧ length (prompts_sent registry strategies llm corrective max_retries prompt)
    = max_retries + 1
  ∧ default_max_retries = 2.
Proof.
  intros Hfail.
  assert (∀ k, k ≤ max_retries →
               extract strategies
                 (llm (0 + k) (prompt_at corrective (0 + k) prompt)) = None)
    as Hex.
  { intros k Hk. apply extract_None. intros s Hs. by apply Hfail. }
  unfold Plan, prompts_sent. rewrite (attempt_unparseable _ _ _ Hex).
  cbn [fst snd]. unfold prompt_at. rewrite decide_True by done.
  split; [done|]. split; [done|]. split; [|done].
  cbn [length]. rewrite length_replicate. lia.
Qed.

End PlannerFacts.

(** C6 with two retries and a model that answers in prose on its first
    three calls; its fourth reply would be a plan, but that call is
    never made. *)
Lemma Plan_unparseable_gives_empty_plan_witness :
  SampleBackend.whole_response
    (SampleBackend.llm_late 3 "Plan the tools. Answer with JSON only.")
  = Some []
  ∧ Planner.Plan SampleBackend.registry SampleBackend.cascade
      SampleBackend.llm_late " Answer with JSON only." 2 "Plan the tools."
    = Planner.Ok []
  ∧ Planner.prompts_sent SampleBackend.registry SampleBackend.cascade
      SampleBackend.llm_late " Answer with JSON only." 2 "Plan the tools."
    = ["Plan the tools."; "Plan the tools. Answer with JSON only.";
       "Plan the tools. Answer with JSON only."].
Proof.
  split; [reflexivity|].
  assert (∀ n strategy,
            n ≤ 2 → strategy ∈ SampleBackend.cascade →
            strategy (SampleBackend.llm_late n
                        (Planner.prompt_at " Answer with JSON only." n
                           "Plan the tools.")) = None) as Hfail.
  { intros n strategy Hn Hs. unfold SampleBackend.llm_late.
    rewrite decide_False by lia. unfold SampleBackend.cascade in Hs.
    apply elem_of_cons in Hs as [->|Hs]; [reflexivity|].
    apply elem_of_cons in Hs as [->|Hs]; [reflexivity|].
    by apply elem_of_nil in Hs. }
  pose proof (Plan_unparseable_gives_empty_plan SampleBackend.registry
                SampleBackend.cascade SampleBackend.llm_late
                " Answer with JSON only." 2 "Plan the tools." Hfail)
    as (Hplan & Hsent & _).
  split; [exact Hplan|exact Hsent].
Defined.

(** Malformed on the first call, a plan on the second: one retry. *)
Example Plan_succeeds_after_one_retry :
  Planner.attempt SampleBackend.registry SampleBackend.cascade
    SampleBackend.llm_second_time " Answer with JSON only." 2 0 "Plan the tools."
  = ([], ["Plan the tools."; "Plan the tools. Answer with JSON only."]).
Proof. reflexivity. Qed.

(** ** The session store *)
Section SessionFacts.
Import Session KeyedStore.







End SessionFacts.

(** C3 at two users: a session is saved for alice, then one for bob, and
    the process restarts; both records are read back. *)
Example two_users_keep_their_sessions :
  let p := Session.KeyedStore.run
             [Session.KeyedStore.Save SampleBackend.alice;
              Session.KeyedStore.Save SampleBackend.bob;
              Session.KeyedStore.Restart] in
  Session.KeyedStore.load p "alice" "kite" = Some SampleBackend.alice
  ∧ Session.KeyedStore.load p "bob" "kite" = Some SampleBackend.bob.
Proof. vm_compute. done. Qed.

(** ** The result cache *)
Section EngineFacts.
Import Engine.
Context {K : Type} {K_eq : EqDecision K} {K_countable : Countable K}.
Variable V : Type.
Variable idempotent : K -> bool.
Variable ttl : K -> nat.

Lemma invocations_snoc (c : gmap K (CacheEntry V)) (i : gset K)
  (u : list (K * nat)) (k k' : K) (now : nat) :
  invocations V (mkEngine V c i (u ++ [(k', now)])) k
  = invocations V (mkEngine V c i u) k + (if decide (k' = k) then 1 else 0).
Proof.
  unfold invocations. simpl. rewrite filter_app, length_app.
  rewrite filter_cons, filter_nil. simpl. by destruct (decide (k' = k)).
Qed.

(** A live entry is read and left in place. *)
Lemma Get_live (c : gmap K (CacheEntry V)) (k : K) (now : nat) e :
  c !! k = Some e → now < expires_at e → Get V c k now = (c, Some (value e)).
Proof. intros Hc Hl. unfold Get. rewrite Hc. by rewrite decide_True. Qed.

(** An expired entry is treated as absent. *)
Lemma Get_expired (c : gmap K (CacheEntry V)) (k : K) (now : nat) e :
  c !! k = Some e → expires_at e ≤ now → Get V c k now = (delete k c, None).
Proof. intros Hc Hl. unfold Get. rewrite Hc. by rewrite decide_False by lia. Qed.

(** [Get] on one key leaves the other keys alone. *)
Lemma Get_other (c : gmap K (CacheEntry V)) (k k' : K) (now : nat) :
  k' ≠ k → (Get V c k' now).1 !! k = c !! k.
Proof.
  intros Hne. unfold Get. destruct (c !! k') as [e|]; [|done].
  destruct (decide _); simpl; [done|]. by rewrite lookup_delete_ne.
Qed.

(** A covered call before the bound does not reach the tool. *)
Lemma covered_call_is_served (s : engine V) (k : K) (now bound : nat) :
  idempotent k = true → covered V k bound s → now < bound →
  ((∃ v, (step V idempotent ttl now s (Call k)).2 = Some (FromCache v))
   ∨ (step V idempotent ttl now s (Call k)).2 = Some Coalesced)
  ∧ covered V k bound (step V idempotent ttl now s (Call k)).1
  ∧ upstream V (step V idempotent ttl now s (Call k)).1 = upstream V s.
Proof.
  intros Hi Hcov Hnow. unfold step. rewrite Hi.
  destruct (cache V s !! k) as [e|] eqn:Hc.
  - destruct (decide (now < expires_at e)) as [Hl|Hl].
    + rewrite (Get_live _ _ _ _ Hc Hl). simpl. split; [eauto|]. split; [|done].
      destruct Hcov as [?|?]; [by left|by right].
    + rewrite (Get_expired _ _ _ _ Hc) by lia.
      destruct Hcov as [Hin|(e' & He' & Hb)].
      * rewrite decide_True by done. simpl. split; [by right|].
        split; [by left|done].
      * rewrite Hc in He'. injection He' as <-. lia.
  - unfold Get. rewrite Hc.
    destruct Hcov as [Hin|(e' & He' & Hb)]; [|congruence].
    rewrite decide_True by done. simpl. split; [by right|].
    split; [by left|done].
Qed.

(** Coverage of [k] survives every event that is not a failed
    invocation of [k], and no such event invokes the tool for [k]. *)
Lemma step_covered (s : engine V) (k : K) (now bound : nat) (ev : event K V) :
  idempotent k = true → covered V k bound s →
  now < bound → bound ≤ now + ttl k →
  ev ≠ Settle k Failure →
  covered V k bound (step V idempotent ttl now s ev).1
  ∧ invocations V (step V idempotent ttl now s ev).1 k = invocations V s k.
Proof.
  intros Hi Hcov Hnow Hb Hev. destruct ev as [k'|k' r].
  - destruct (decide (k' = k)) as [->|Hne].
    { destruct (covered_call_is_served s k now bound Hi Hcov Hnow)
        as (_ & Hc & Hu). split; [done|]. unfold invocations. by rewrite Hu. }
    unfold step. destruct (idempotent k').
    + destruct (Get V (cache V s) k' now) as [c [v|]] eqn:HG.
      * simpl. split; [|done].
        destruct Hcov as [?|(e & He & ?)]; [by left|right].
        exists e. split; [|done]. simpl.
        rewrite <- He. rewrite <- (Get_other (cache V s) k k' now Hne).
        by rewrite HG.
      * assert (c !! k = cache V s !! k) as Hck.
        { rewrite <- (Get_other (cache V s) k k' now Hne). by rewrite HG. }
        destruct (decide (k' ∈ inflight V s)) as [Hin'|Hnin']; simpl.
        -- split; [|done].
           destruct Hcov as [?|(e & He & ?)]; [by left|right].
           exists e. simpl. by rewrite Hck.
        -- split.
           ++ destruct Hcov as [?|(e & He & ?)]; [left; simpl; set_solver|right].
              exists e. simpl. by rewrite Hck.
           ++ rewrite invocations_snoc. rewrite decide_False by done.
              unfold invocations. simpl. lia.
    + simpl. split.
      * destruct Hcov as [?|?]; [by left|by right].
      * rewrite invocations_snoc. rewrite decide_False by done.
        unfold invocations. simpl. lia.
  - unfold step.
    destruct (idempotent k' && bool_decide (k' ∈ inflight V s)) eqn:Hg;
      [|done].
    destruct (decide (k' = k)) as [->|Hne].
    + destruct r as [v|]; [|done]. simpl. split; [|done].
      right. exists (mkEntry v (now + ttl k)). simpl.
      unfold Put. rewrite lookup_insert_eq. split; [done|lia].
    + destruct r as [v|]; simpl; (split; [|done]).
      * destruct Hcov as [?|(e & He & ?)]; [left; simpl; set_solver|right].
        exists e. simpl. unfold Put. by rewrite lookup_insert_ne.
      * destruct Hcov as [?|?]; [left; simpl; set_solver|by right].
Qed.

Lemma exec_covered (s : engine V) (k : K) (t1 t2 : nat)
  (mid : list (nat * event K V)) :
  idempotent k = true → covered V k (t1 + ttl k) s → t2 < t1 + ttl k →
  Forall (λ te, t1 ≤ te.1 ≤ t2 ∧ te.2 ≠ Settle k Failure) mid →
  covered V k (t1 + ttl k) (exec V idempotent ttl s mid)
  ∧ invocations V (exec V idempotent ttl s mid) k = invocations V s k.
Proof.
  intros Hi Hcov Ht Hmid. revert s Hcov.
  induction Hmid as [|[now ev] mid [Hnow Hev] _ IH]; intros s Hcov; [done|].
  simpl in *.
  destruct (step_covered s k now (t1 + ttl k) ev Hi Hcov) as [Hc Hn];
    [lia|lia|done|].
  destruct (IH _ Hc) as [Hc' Hn']. split; [done|]. by rewrite Hn'.
Qed.

(** A call that reaches the tool leaves its key in flight. *)
Lemma invoked_call (s : engine V) (k : K) (now : nat) :
  idempotent k = true →
  (step V idempotent ttl now s (Call k)).2 = Some Invoked →
  k ∈ inflight V (step V idempotent ttl now s (Call k)).1
  ∧ invocations V (step V idempotent ttl now s (Call k)).1 k
    = invocations V s k + 1.
Proof.
  intros Hi. unfold step. rewrite Hi.
  destruct (Get V (cache V s) k now) as [c [v|]]; [done|].
  destruct (decide (k ∈ inflight V s)) as [Hin'|Hnin']; [done|]. simpl. intros _.
  split; [set_solver|]. rewrite invocations_snoc. rewrite decide_True by done.
  done.
Qed.

(** What is cached until [expiry] stays so while no call for the key
    comes at or after [expiry]. *)
Lemma step_cached_until (s : engine V) (k : K) (now expiry : nat)
  (ev : event K V) :
  idempotent k = true → cached_until V k expiry s →
  (ev = Call k → now < expiry) →
  cached_until V k expiry (step V idempotent ttl now s ev).1.
Proof.
  intros Hi [Hnin (e & He & Hx)] Hev. destruct ev as [k'|k' r].
  - destruct (decide (k' = k)) as [->|Hne].
    + unfold step. rewrite Hi.
      rewrite (Get_live _ _ _ _ He) by (specialize (Hev eq_refl); lia).
      simpl. split; [done|eauto].
    + unfold step. destruct (idempotent k'); [|split; [done|eauto]].
      destruct (Get V (cache V s) k' now) as [c [v|]] eqn:HG.
      * split; [done|]. exists e. simpl. split; [|done].
        rewrite <- He, <- (Get_other (cache V s) k k' now Hne). by rewrite HG.
      * assert (c !! k = Some e) as Hck.
        { rewrite <- He, <- (Get_other (cache V s) k k' now Hne).
          by rewrite HG. }
        destruct (decide (k' ∈ inflight V s)) as [Hin'|Hnin']; simpl.
        -- split; [done|]. exists e. done.
        -- split; [|by exists e]. simpl.
           apply not_elem_of_union. split; [|done].
           by apply not_elem_of_singleton.
  - unfold step.
    destruct (idempotent k' && bool_decide (k' ∈ inflight V s)) eqn:Hg;
      [|split; [done|eauto]].
    apply andb_true_iff in Hg as [_ Hin%bool_decide_eq_true].
    assert (k' ≠ k) as Hne by (intros ->; done).
    destruct r as [v|]; simpl.
    + split; [simpl; by intros [? _]%elem_of_difference|].
      exists e. simpl. unfold Put. by rewrite lookup_insert_ne.
    + split; [simpl; by intros [? _]%elem_of_difference|]. by exists e.
Qed.

Lemma exec_cached_until (s : engine V) (k : K) (expiry : nat)
  (mid : list (nat * event K V)) :
  idempotent k = true → cached_until V k expiry s →
  Forall (λ te, te.2 = Call k → te.1 < expiry) mid →
  cached_until V k expiry (exec V idempotent ttl s mid).
Proof.
  intros Hi Hc Hmid. revert s Hc.
  induction Hmid as [|[now ev] mid Hev _ IH]; intros s Hc; [done|].
  simpl in *. apply IH. by apply step_cached_until.
Qed.

(** A call at or after the expiry of what is cached reaches the tool. *)
Lemma expired_call_is_invoked (s : engine V) (k : K) (now expiry : nat) :
  idempotent k = true → cached_until V k expiry s → expiry ≤ now →
  (step V idempotent ttl now s (Call k)).2 = Some Invoked.
Proof.
  intros Hi [Hnin (e & He & Hx)] Hnow. unfold step. rewrite Hi.
  rewrite (Get_expired _ _ _ _ He) by lia.
  by rewrite decide_False.
Qed.

End EngineFacts.

Section EngineClaim.
Import Engine.
Context {K : Type} {K_eq : EqDecision K} {K_countable : Countable K}.
Variable V : Type.
Variable idempotent : K -> bool.
Variable ttl : K -> nat.

Lemma settle_success_cached (s : engine V) (k : K) (now : nat) (v : V) :
  idempotent k = true → k ∈ inflight V s →
  cached_until V k (now + ttl k)
    (step V idempotent ttl now s (Settle k (Success v))).1.
Proof.
  intros Hi Hin. unfold step. rewrite Hi, bool_decide_eq_true_2 by done.
  simpl. split.
  - simpl. intros [_ Hn]%elem_of_difference. apply Hn.
    by apply elem_of_singleton.
  - exists (mkEntry v (now + ttl k)). simpl. unfold Put.
    by rewrite lookup_insert_eq.
Qed.

(** C4, as the model has it. Take an idempotent call that reaches the
    tool at [t1], and an identical call at [t2], less than the time to
    live later, with no failed invocation of that call in between: the
    second call is served from the cache or joins the invocation in
    flight, and between the two the tool was invoked once, for the first
    call.  Once an invocation has settled with success at [tc], the first
    identical call at or after [tc + ttl] reaches the tool again. *)
Theorem identical_calls_invoke_once
  (s : Engine.engine V) (k : K) (t1 t2 : nat)
  (mid : list (nat * Engine.event K V)) :
  idempotent k = true →
  (step V idempotent ttl t1 s (Call k)).2 = Some Invoked →
  Forall (λ te, t1 ≤ te.1 ≤ t2 ∧ te.2 ≠ Settle k Failure) mid →
  t2 < t1 + ttl k →
  let s1 := exec V idempotent ttl (step V idempotent ttl t1 s (Call k)).1 mid in
  ((∃ v, (step V idempotent ttl t2 s1 (Call k)).2 = Some (FromCache v))
   ∨ (step V idempotent ttl t2 s1 (Call k)).2 = Some Coalesced)
  ∧ invocations V (step V idempotent ttl t2 s1 (Call k)).1 k
    = invocations V s k + 1
  ∧ (∀ s' tc v after t3,
       k ∈ inflight V s' →
       Forall (λ te, te.2 = Call k → te.1 < tc + ttl k) after →
       tc + ttl k ≤ t3 →
       (step V idempotent ttl t3
          (exec V idempotent ttl
             (step V idempotent ttl tc s' (Settle k (Success v))).1 after)
          (Call k)).2 = Some Invoked).
Proof.
  intros Hi Hinv Hmid Ht s1.
  destruct (invoked_call V idempotent ttl s k t1 Hi Hinv) as [Hin Hn1].
  destruct (exec_covered V idempotent ttl _ k t1 t2 mid Hi (or_introl Hin) Ht Hmid)
    as [Hcov Hn2].
  fold s1 in Hcov, Hn2.
  destruct (covered_call_is_served V idempotent ttl s1 k t2 (t1 + ttl k)
              Hi Hcov Ht) as (Hserved & _ & Hu).
  split; [done|]. split.
  - unfold invocations in *. rewrite Hu. lia.
  - intros s' tc v after t3 Hin' Hafter Ht3.
    apply (expired_call_is_invoked V idempotent ttl _ k t3 (tc + ttl k) Hi);
      [|done].
    apply exec_cached_until; [done| |done].
    by apply settle_success_cached.
Qed.

End EngineClaim.

(** C4 as amended: the price of TCS asked at 0 and again at 30, the
    first invocation having succeeded at 3. *)
Lemma identical_calls_invoke_once_witness :
  let step := Engine.step string SampleBackend.all_idempotent SampleBackend.sixty in
  let settled := [(3, Engine.Settle SampleBackend.tcs (Engine.Success "3500"))] in
  let s1 := Engine.exec string SampleBackend.all_idempotent SampleBackend.sixty
              (step 0 (Engine.start string) (Engine.Call SampleBackend.tcs)).1
              settled in
  (step 0 (Engine.start string) (Engine.Call SampleBackend.tcs)).2
  = Some Engine.Invoked
  ∧ 30 < 0 + SampleBackend.sixty SampleBackend.tcs
  ∧ ((∃ v, (step 30 s1 (Engine.Call SampleBackend.tcs)).2
           = Some (Engine.FromCache v))
     ∨ (step 30 s1 (Engine.Call SampleBackend.tcs)).2 = Some Engine.Coalesced)
  ∧ Engine.invocations string (step 30 s1 (Engine.Call SampleBackend.tcs)).1
      SampleBackend.tcs
    = Engine.invocations string (Engine.start string) SampleBackend.tcs + 1.
Proof.
  assert (30 < 0 + SampleBackend.sixty SampleBackend.tcs) as Ht
    by (unfold SampleBackend.sixty; lia).
  assert (Forall (λ te : nat * Engine.event string string,
                    0 ≤ te.1 ≤ 30
                    ∧ te.2 ≠ Engine.Settle SampleBackend.tcs Engine.Failure)
            [(3, Engine.Settle SampleBackend.tcs (Engine.Success "3500"))])
    as Hmid.
  { apply Forall_cons_2; [|apply Forall_nil_2].
    simpl. split; [lia|discriminate]. }
  split; [vm_compute; reflexivity|]. split; [exact Ht|].
  pose proof (identical_calls_invoke_once string SampleBackend.all_idempotent
                SampleBackend.sixty (Engine.start string) SampleBackend.tcs
                0 30 _ eq_refl eq_refl Hmid Ht) as (Hserved & Hcount & _).
  split; [exact Hserved|exact Hcount].
Defined.

(** Served from the cache within the window, invoked again after it. *)
Example price_of_TCS_twice :
  let step := Engine.step string SampleBackend.all_idempotent SampleBackend.sixty in
  let s1 := Engine.exec string SampleBackend.all_idempotent SampleBackend.sixty
              (Engine.start string)
              [(0, Engine.Call SampleBackend.tcs);
               (3, Engine.Settle SampleBackend.tcs (Engine.Success "3500"))] in
  (step 30 s1 (Engine.Call SampleBackend.tcs)).2
  = Some (Engine.FromCache "3500")
  ∧ (step 63 s1 (Engine.Call SampleBackend.tcs)).2 = Some Engine.Invoked.
Proof. vm_compute. done. Qed.

(** Against C4 as stated: the first invocation fails, so nothing is
    cached; the identical call two seconds later, well within the sixty
    seconds, invokes the tool a second time. *)
Lemma failed_call_is_invoked_again :
  let step := Engine.step string SampleBackend.all_idempotent SampleBackend.sixty in
  let s1 := Engine.exec string SampleBackend.all_idempotent SampleBackend.sixty
              (Engine.start string)
              [(0, Engine.Call SampleBackend.tcs);
               (1, Engine.Settle SampleBackend.tcs Engine.Failure)] in
  (step 0 (Engine.start string) (Engine.Call SampleBackend.tcs)).2
  = Some Engine.Invoked
  ∧ 2 < 0 + SampleBackend.sixty SampleBackend.tcs
  ∧ (step 2 s1 (Engine.Call SampleBackend.tcs)).2 = Some Engine.Invoked
  ∧ Engine.invocations string (step 2 s1 (Engine.Call SampleBackend.tcs)).1
      SampleBackend.tcs = 2.
Proof. vm_compute. split; [done|]. split; [lia|done]. Qed.
(* ------------------------------------------------------------------ *)
(** * Part III: further properties of the front end                    *)
(* ------------------------------------------------------------------ *)

(** ** Splitting into lines *)
Section SplitFacts.
Import JS Api.

Lemma split_nonempty (sep : N) (s : jsstring) : split sep s ≠ [].
Proof.
  destruct s as [|c s]; simpl; [done|].
  destruct (c =? sep)%N; [done|]. by destruct (split sep s).
Qed.

Lemma pop_cons (x : jsstring) (L : list jsstring) :
  L ≠ [] → pop (x :: L) = (x :: (pop L).1, (pop L).2).
Proof.
  intros HL. unfold pop. destruct L as [|y L]; [done|]. simpl.
  by rewrite Nat.sub_0_r.
Qed.

Lemma pop_app (L1 L2 : list jsstring) :
  L2 ≠ [] → pop (L1 ++ L2) = (L1 ++ (pop L2).1, (pop L2).2).
Proof.
  intros HL. induction L1 as [|x L1 IH]; simpl.
  - done.
  - rewrite pop_cons, IH; [done|]. by destruct L1, L2.
Qed.

(** The lines of a text that goes on: the complete lines of the first
    part, then the lines of its last, open line with the rest. *)
Lemma split_app (sep : N) (a b : jsstring) :
  split sep (a ++ b)
  = (pop (split sep a)).1 ++ split sep (default [] (pop (split sep a)).2 ++ b).
Proof.
  induction a as [|c a IH]; [done|].
  cbn [app split]. rewrite IH.
  pose proof (split_nonempty sep a) as Hne.
  destruct (c =? sep)%N eqn:Ec.
  - by rewrite pop_cons.
  - destruct (split sep a) as [|l [|l' ls]] eqn:E; [done| |].
    + cbn [pop length take last fst snd default app Nat.sub].
      unfold id. cbn [app split]. by rewrite Ec.
    + by rewrite !(pop_cons _ (l' :: ls)).
Qed.

Lemma split_no_sep (sep : N) (s : jsstring) :
  sep ∉ s → split sep s = [s].
Proof.
  induction s as [|c s IH]; intros Hs; simpl; [done|].
  apply not_elem_of_cons in Hs as [Hc Hs].
  destruct (N.eqb_spec c sep) as [->|_]; [done|]. by rewrite IH.
Qed.

(** No line holds the separator. *)
Lemma split_lines_no_sep (sep : N) (s l : jsstring) :
  l ∈ split sep s → sep ∉ l.
Proof.
  revert l. induction s as [|c s IH]; intros l; simpl.
  - intros ->%list_elem_of_singleton. apply not_elem_of_nil.
  - destruct (N.eqb_spec c sep) as [->|Hc].
    + intros [->|Hl]%elem_of_cons; [apply not_elem_of_nil|by apply IH].
    + destruct (split sep s) as [|m ms]; simpl.
      * intros ->%list_elem_of_singleton.
        apply not_elem_of_cons. split; [done|apply not_elem_of_nil].
      * intros [->|Hl]%elem_of_cons.
        -- apply not_elem_of_cons. split; [done|].
           apply IH, list_elem_of_here.
        -- by apply IH, list_elem_of_further.
Qed.

Lemma popped_no_sep (sep : N) (s : jsstring) :
  sep ∉ default [] (pop (split sep s)).2.
Proof.
  unfold pop. simpl. destruct (last (split sep s)) as [l|] eqn:E; simpl.
  - apply (split_lines_no_sep sep s). apply last_Some in E as [L' ->].
    apply elem_of_app. right. apply list_elem_of_here.
  - apply not_elem_of_nil.
Qed.

End SplitFacts.

(** ** The streaming query: reads, callbacks, outcomes *)
Section StreamMore.
Import JS Api ApiMore.
Variable JSON_parse : jsstring -> outcome JValue.
Variable fetch : Request -> outcome Response.
Variable cb : callbacks.

Lemma for_lines_app (l1 l2 : list jsstring) :
  for_lines JSON_parse cb (l1 ++ l2)
  = match for_lines JSON_parse cb l1 with
    | (evs, Return) => (evs, Return)
    | (evs, Continue) =>
        let '(evs', c) := for_lines JSON_parse cb l2 in (evs ++ evs', c)
    end.
Proof.
  induction l1 as [|l l1 IH]; simpl.
  - by destruct (for_lines JSON_parse cb l2).
  - destruct (handle_line JSON_parse cb l) as [e [|]]; [|done].
    rewrite IH. destruct (for_lines JSON_parse cb l1) as [e1 [|]]; [|done].
    destruct (for_lines JSON_parse cb l2) as [e2 c2]. by rewrite app_assoc.
Qed.

(** One step of the read loop, with the lines named. *)
Lemma read_loop_step (value : jsstring) (rest : list (outcome jsstring))
  (buffer : jsstring) :
  read_loop JSON_parse cb (Returns value :: rest) buffer
  = match for_lines JSON_parse cb (pop (split 10 (buffer ++ value))).1 with
    | (evs, Return) => (evs, Returns tt)
    | (evs, Continue) =>
        let '(evs', r) :=
          read_loop JSON_parse cb rest
            (default [] (pop (split 10 (buffer ++ value))).2) in
        (evs ++ evs', r)
    end.
Proof. done. Qed.

Lemma read_loop_merge (v1 v2 : jsstring) (rest : list (outcome jsstring))
  (buffer : jsstring) :
  read_loop JSON_parse cb (Returns v1 :: Returns v2 :: rest) buffer
  = read_loop JSON_parse cb (Returns (v1 ++ v2) :: rest) buffer.
Proof.
  rewrite (read_loop_step v1), (read_loop_step (v1 ++ v2)).
  rewrite (app_assoc buffer v1 v2), (split_app 10 (buffer ++ v1) v2).
  rewrite pop_app by apply split_nonempty. cbn [fst snd].
  rewrite for_lines_app.
  destruct (for_lines JSON_parse cb (pop (split 10 (buffer ++ v1))).1)
    as [e1 [|]]; [|done].
  rewrite read_loop_step.
  destruct (for_lines JSON_parse cb _) as [e2 [|]]; [|done].
  destruct (read_loop JSON_parse cb rest _) as [e3 r]. by rewrite app_assoc.
Qed.

Lemma read_loop_empty_read (rest : list (outcome jsstring)) :
  read_loop JSON_parse cb (Returns [] :: rest) []
  = read_loop JSON_parse cb rest [].
Proof.
  rewrite read_loop_step. simpl.
  by destruct (read_loop JSON_parse cb rest []).
Qed.

Lemma read_loop_concat_cons (v1 : jsstring) (vs : list jsstring)
  (rest : list (outcome jsstring)) (buffer : jsstring) :
  read_loop JSON_parse cb ((Returns <$> (v1 :: vs)) ++ rest) buffer
  = read_loop JSON_parse cb (Returns (concat (v1 :: vs)) :: rest) buffer.
Proof.
  revert v1. induction vs as [|v2 vs IH]; intros v1.
  - simpl. by rewrite app_nil_r.
  - rewrite !fmap_cons. cbn [app]. rewrite read_loop_merge.
    specialize (IH (v1 ++ v2)). rewrite fmap_cons in IH. cbn [app] in IH.
    rewrite IH. cbn [concat]. by rewrite app_assoc.
Qed.

Lemma read_loop_concat (vs : list jsstring) (rest : list (outcome jsstring)) :
  read_loop JSON_parse cb ((Returns <$> vs) ++ rest) []
  = read_loop JSON_parse cb (Returns (concat vs) :: rest) [].
Proof.
  destruct vs as [|v1 vs]; [|apply read_loop_concat_cons].
  cbn [fmap list_fmap app concat]. by rewrite read_loop_empty_read.
Qed.

End StreamMore.

Section StreamOutcomes.
Import JS Api ApiMore.
Variable JSON_parse : jsstring -> outcome JValue.
Variable fetch : Request -> outcome Response.

Lemma content_chunks_nil : content_chunks [].
Proof. exists []. by split. Qed.

Lemma content_chunks_app evs evs' :
  content_chunks evs → content_chunks evs' → content_chunks (evs ++ evs').
Proof.
  intros (c & Hc & ->) (c' & Hc' & ->). exists (c ++ c').
  split; [by apply Forall_app|by rewrite fmap_app].
Qed.

Lemma run_shape_prepend evs evs' res :
  content_chunks evs → run_shape (evs', res) → run_shape (evs ++ evs', res).
Proof.
  intros Hc (e & l & He & Hl & Hend). simpl in *. subst evs'.
  exists (evs ++ e), l. split; [by apply content_chunks_app|].
  split; [by rewrite app_assoc|done].
Qed.

Lemma handle_line_outcome line evs c :
  handle_line JSON_parse all_supplied line = (evs, c) →
  match c with
  | Continue => content_chunks evs
  | Return => ∃ last_call, evs = [last_call] ∧ ends_with last_call (Returns tt)
  end.
Proof.
  unfold handle_line.
  destruct (startsWith _ line); [|intros [= <- <-]; apply content_chunks_nil].
  destruct (JSON_parse _) as [data|];
    [|intros [= <- <-]; apply content_chunks_nil].
  destruct (get data f_error) as [err|];
    [|intros [= <- <-]; apply content_chunks_nil].
  destruct (truthy err) eqn:Herr.
  { cbn [onError all_supplied].
    destruct (convertible err) eqn:Hconv; intros [= <- <-];
      [|apply content_chunks_nil].
    eexists. split; [done|]. right. left. eauto. }
  destruct (get data f_done) as [dn|];
    [|intros [= <- <-]; apply content_chunks_nil].
  destruct (truthy dn).
  { intros [= <- <-]. eexists. split; [done|]. by left. }
  destruct (get data f_content) as [content|];
    [|intros [= <- <-]; apply content_chunks_nil].
  destruct (truthy content) eqn:Hc; simpl; intros [= <- <-].
  - exists [content]. split; [|done]. by apply Forall_singleton.
  - apply content_chunks_nil.
Qed.

Lemma for_lines_outcome lines evs c :
  for_lines JSON_parse all_supplied lines = (evs, c) →
  match c with
  | Continue => content_chunks evs
  | Return => run_shape (evs, Returns tt)
  end.
Proof.
  revert evs c. induction lines as [|line rest IH]; intros evs c; simpl.
  { intros [= <- <-]. apply content_chunks_nil. }
  destruct (handle_line JSON_parse all_supplied line) as [e1 [|]] eqn:E1.
  - destruct (for_lines JSON_parse all_supplied rest) as [e2 c2] eqn:E2.
    intros [= <- <-]. pose proof (handle_line_outcome _ _ _ E1) as H1.
    pose proof (IH _ _ eq_refl) as H2. simpl in H1.
    destruct c2; [by apply content_chunks_app|by apply run_shape_prepend].
  - intros [= <- <-].
    destruct (handle_line_outcome _ _ _ E1) as (l & -> & Hl).
    exists [], l. split; [apply content_chunks_nil|]. by split.
Qed.

Lemma catch_outcome e : run_shape (catch all_supplied e).
Proof.
  exists [], (OnError (Caught e)). split; [apply content_chunks_nil|].
  split; [done|]. right. right. eauto.
Qed.

Lemma read_loop_outcome rs buffer :
  run_shape (read_loop JSON_parse all_supplied rs buffer).
Proof.
  revert buffer. induction rs as [|[value|e] rest IH]; intros buffer.
  - exists [], OnComplete. split; [apply content_chunks_nil|].
    split; [done|]. by left.
  - rewrite read_loop_step.
    destruct (for_lines _ _ _) as [evs [|]] eqn:E.
    + specialize (IH (default [] (pop (split 10 (buffer ++ value))).2)).
      destruct (read_loop _ _ rest _) as [evs' r].
      apply run_shape_prepend; [|done]. apply (for_lines_outcome _ _ _ E).
    + apply (for_lines_outcome _ _ _ E).
  - apply catch_outcome.
Qed.

(** The whole function has the shape of its parts. *)
Lemma stream_run_shape (q : jsstring) :
  ∃ chunks last_call,
    Forall (λ v, truthy v = true) chunks
    ∧ (portfolioChatbotStream JSON_parse fetch all_supplied q).1
      = (OnChunk <$> chunks) ++ [last_call]
    ∧ ends_with last_call
        (portfolioChatbotStream JSON_parse fetch all_supplied q).2.
Proof.
  assert (run_shape (portfolioChatbotStream JSON_parse fetch all_supplied q))
    as (evs & l & (chunks & Hc & ->) & Hl & Hend).
  { unfold portfolioChatbotStream.
    destruct (fetch _) as [response|e]; [|apply catch_outcome].
    destruct (ok response); simpl; [apply read_loop_outcome|apply catch_outcome]. }
  by exists chunks, l.
Qed.

(** X4. With all three callbacks supplied, a run of
    [portfolioChatbotStream] forwards truthy contents only and ends in
    one of three ways: onComplete and a normal return; onError with an
    error chunk's error and a normal return; or onError with the error it
    caught, which it then rethrows.  So it rethrows exactly the error
    onError has just received, and returns normally otherwise. *)
Theorem stream_run_ends_three_ways (q : JS.jsstring) :
  ∃ chunks last_call,
    Forall (λ v, truthy v = true) chunks
    ∧ (portfolioChatbotStream JSON_parse fetch all_supplied q).1
      = (OnChunk <$> chunks) ++ [last_call]
    ∧ ((last_call = OnComplete
        ∧ (portfolioChatbotStream JSON_parse fetch all_supplied q).2
          = Returns tt)
       ∨ (∃ v, truthy v = true
               ∧ last_call = OnError (ChunkError v)
               ∧ (portfolioChatbotStream JSON_parse fetch all_supplied q).2
                 = Returns tt)
       ∨ (∃ e, last_call = OnError (Caught e)
               ∧ (portfolioChatbotStream JSON_parse fetch all_supplied q).2
                 = Throws e)).
Proof.
  destruct (stream_run_shape q) as (chunks & l & Hc & Hl & Hend).
  exists chunks, l. split; [done|]. split; [done|].
  destruct Hend as [?|[(v & Hv & _ & Hl' & Hr)|?]]; [by left| |by right; right].
  right. left. by exists v.
Qed.

(** The calls with a set of callbacks are the calls with [onChunk] and
    [onComplete] supplied as well, less those of the callbacks that are
    absent. *)
Lemma handle_line_supplied cb line :
  handle_line JSON_parse cb line
  = (filter (supplied cb) (handle_line JSON_parse (with_both cb) line).1,
     (handle_line JSON_parse (with_both cb) line).2).
Proof.
  unfold handle_line. cbn [with_both onChunk onComplete onError].
  destruct (startsWith _ line); [|done].
  destruct (JSON_parse _) as [data|]; [|done].
  destruct (get data f_error) as [err|]; [|done].
  destruct (truthy err).
  { destruct (onError cb) eqn:He; [|done].
    destruct (convertible err); [|done].
    simpl. rewrite filter_cons, filter_nil. simpl. by rewrite He. }
  destruct (get data f_done) as [dn|]; [|done].
  destruct (truthy dn).
  { simpl. rewrite filter_cons, filter_nil. simpl.
    by destruct (onComplete cb). }
  destruct (get data f_content) as [content|]; [|done].
  destruct (truthy content); simpl; [|done].
  rewrite filter_cons, filter_nil. simpl. by destruct (onChunk cb).
Qed.

Lemma for_lines_supplied cb lines :
  for_lines JSON_parse cb lines
  = (filter (supplied cb) (for_lines JSON_parse (with_both cb) lines).1,
     (for_lines JSON_parse (with_both cb) lines).2).
Proof.
  induction lines as [|line rest IH]; simpl; [done|].
  rewrite handle_line_supplied.
  destruct (handle_line JSON_parse (with_both cb) line) as [e1 [|]]; [|done].
  simpl. rewrite IH.
  destruct (for_lines JSON_parse (with_both cb) rest) as [e2 c2]. simpl.
  by rewrite filter_app.
Qed.

Lemma catch_supplied cb e :
  catch cb e = (filter (supplied cb) (catch (with_both cb) e).1,
                (catch (with_both cb) e).2).
Proof.
  unfold catch. cbn [with_both onError].
  destruct (onError cb) eqn:He; [|done].
  simpl. rewrite filter_cons, filter_nil. simpl. by rewrite He.
Qed.

Lemma read_loop_supplied cb rs buffer :
  read_loop JSON_parse cb rs buffer
  = (filter (supplied cb) (read_loop JSON_parse (with_both cb) rs buffer).1,
     (read_loop JSON_parse (with_both cb) rs buffer).2).
Proof.
  revert buffer. induction rs as [|[value|e] rest IH]; intros buffer.
  - simpl. rewrite filter_cons, filter_nil. simpl. by destruct (onComplete cb).
  - rewrite !read_loop_step, for_lines_supplied.
    destruct (for_lines JSON_parse (with_both cb) _) as [e1 [|]]; [|done].
    simpl. rewrite IH.
    destruct (read_loop JSON_parse (with_both cb) rest _) as [e2 r]. simpl.
    by rewrite filter_app.
  - apply catch_supplied.
Qed.

(** X3. An absent [onChunk] or [onComplete] is never called and changes
    nothing else: whichever callbacks are supplied,
    [portfolioChatbotStream] ends as it does with those two supplied as
    well (it returns, or rethrows the same error), and its calls are the
    calls it makes then, less those of the absent callbacks; with
    [onError] supplied that is the run with all three.  An absent
    [onError] changes one thing more: at a chunk whose error cannot be
    converted to a string the function returns, while with [onError]
    supplied the conversion throws, the chunk is skipped and the loop
    goes on. *)
Theorem absent_callbacks_only_drop_their_calls
  (cb : Api.callbacks) (q : JS.jsstring) :
  portfolioChatbotStream JSON_parse fetch cb q
  = (filter (supplied cb)
       (portfolioChatbotStream JSON_parse fetch (with_both cb) q).1,
     (portfolioChatbotStream JSON_parse fetch (with_both cb) q).2)
  ∧ (onError cb = true →
     portfolioChatbotStream JSON_parse fetch cb q
     = (filter (supplied cb)
          (portfolioChatbotStream JSON_parse fetch all_supplied q).1,
        (portfolioChatbotStream JSON_parse fetch all_supplied q).2))
  ∧ (∀ line data err,
       startsWith (lit "data: ") line = true →
       JSON_parse (slice 6 line) = Returns data →
       get data f_error = Some err →
       truthy err = true → convertible err = false →
       handle_line JSON_parse cb line
       = ([], if onError cb then Continue else Return)).
Proof.
  assert (portfolioChatbotStream JSON_parse fetch cb q
          = (filter (supplied cb)
               (portfolioChatbotStream JSON_parse fetch (with_both cb) q).1,
             (portfolioChatbotStream JSON_parse fetch (with_both cb) q).2))
    as Hall.
  { unfold portfolioChatbotStream.
    destruct (fetch _) as [response|e]; [|apply catch_supplied].
    destruct (ok response); simpl;
      [apply read_loop_supplied|apply catch_supplied]. }
  split; [done|]. split.
  - intros He. rewrite Hall. unfold with_both. by rewrite He.
  - intros line data err Hs Hp Hg Ht Hconv. unfold handle_line.
    rewrite Hs, Hp, Hg, Ht, Hconv. by destruct (onError cb).
Qed.

End StreamOutcomes.

Section StreamReads.
Import JS Api ApiMore.
Variable JSON_parse : jsstring -> outcome JValue.
Variable cb : callbacks.

(** X1. The callbacks and the result do not depend on where the byte
    stream is cut into reads: two reads in a row do what one read of
    their concatenation does, whatever is buffered and whatever follows,
    and a stream of reads does what one read of the whole text does. *)
Theorem read_boundaries_do_not_matter :
  (∀ v1 v2 rest buffer,
     read_loop JSON_parse cb (Returns v1 :: Returns v2 :: rest) buffer
     = read_loop JSON_parse cb (Returns (v1 ++ v2) :: rest) buffer)
  ∧ (∀ vs rest,
       read_loop JSON_parse cb ((Returns <$> vs) ++ rest) []
       = read_loop JSON_parse cb (Returns (concat vs) :: rest) []).
Proof.
  split; [apply read_loop_merge|apply read_loop_concat].
Qed.

Lemma read_loop_open_line (buffer tail : jsstring) :
  (10%N) ∉ buffer → (10%N) ∉ tail →
  read_loop JSON_parse cb [Returns tail] buffer
  = read_loop JSON_parse cb [] buffer.
Proof.
  intros Hb Ht. rewrite read_loop_step.
  rewrite split_no_sep.
  - done.
  - intros [?|?]%elem_of_app; done.
Qed.

(** X2. Text after the last line feed is never processed: a last read
    that holds no line feed changes nothing, so a final [data: ] line
    that is not terminated by a line feed is lost, be it a content, done
    or error chunk; a single read without a line feed, on a buffer
    without one, only calls onComplete. *)
Theorem unterminated_last_line_is_dropped
  (rs : list (JS.outcome JS.jsstring)) (buffer tail : JS.jsstring) :
  (10%N) ∉ buffer → (10%N) ∉ tail →
  read_loop JSON_parse cb (rs ++ [Returns tail]) buffer
  = read_loop JSON_parse cb rs buffer
  ∧ read_loop JSON_parse cb [Returns tail] buffer
    = (call cb.(onComplete) OnComplete, Returns tt).
Proof.
  intros Hb Ht. split; [|by rewrite read_loop_open_line].
  revert buffer Hb. induction rs as [|[value|e] rest IH]; intros buffer Hb.
  - by apply read_loop_open_line.
  - cbn [app]. rewrite !read_loop_step.
    destruct (for_lines JSON_parse cb _) as [e1 [|]]; [|done].
    rewrite IH; [done|]. apply popped_no_sep.
  - done.
Qed.

End StreamReads.

(** ** The other requests of the API client *)
Section ApiMoreFacts.
Import JS Api ApiMore.
Variable JSON_parse : jsstring -> outcome JValue.
Variable fetch : Request -> outcome Response.
Variable report_reply : outcome Response.

(** X5. [portfolioChatbotSync] accepts and refuses the same replies as
    [marketChatbotSync], on its own path: it returns the parsed object
    exactly when the reply is ok and its parsed body has a string
    response property, and throws in every other case: the error of the
    request when that fails; the server error with the status on a
    reply that is not ok, whatever the body holds; the reader's or the
    parser's error when the body cannot be read or parsed; and "Invalid
    response format from server" when the body parses to a value
    without a string response property. *)
Theorem portfolioChatbotSync_returns_iff (q : JS.jsstring) :
  (∀ data, portfolioChatbotSync JSON_parse fetch q = Returns data ↔
     ∃ response s,
       fetch (mkRequest (lit "/portfolio_chatbot/sync") q) = Returns response
       ∧ ok response = true
       ∧ json JSON_parse response = Returns data
       ∧ get data f_response = Some (val (JStr s)))
  ∧ (∀ response,
       fetch (mkRequest (lit "/portfolio_chatbot/sync") q) = Returns response →
       ok response = false →
       portfolioChatbotSync JSON_parse fetch q = Throws (server_error response))
  ∧ (∀ e, fetch (mkRequest (lit "/portfolio_chatbot/sync") q) = Throws e →
          portfolioChatbotSync JSON_parse fetch q = Throws e)
  ∧ (∀ response e,
       fetch (mkRequest (lit "/portfolio_chatbot/sync") q) = Returns response →
       ok response = true →
       json JSON_parse response = Throws e →
       portfolioChatbotSync JSON_parse fetch q = Throws e)
  ∧ (∀ response data,
       fetch (mkRequest (lit "/portfolio_chatbot/sync") q) = Returns response →
       ok response = true →
       json JSON_parse response = Returns data →
       (∀ s, get data f_response ≠ Some (val (JStr s))) →
       portfolioChatbotSync JSON_parse fetch q = Throws invalid_format).
Proof.
  unfold portfolioChatbotSync. split; [|split; [|split; [|split]]].
  - intros data. split.
    + destruct (fetch _) as [response|e]; [|done].
      destruct (ok response) eqn:Hok; simpl; [|done].
      destruct (json JSON_parse response) as [d|e] eqn:Hj; [|done].
      destruct (truthy_value d) eqn:Ht; simpl; [|done].
      destruct (get d f_response) as [v|] eqn:Hg; [|done].
      destruct (is_string v) eqn:Hs; [|done].
      intros [= ->]. apply is_string_inv in Hs as [s ->]. eauto 10.
    + intros (response & s & -> & Hok & -> & Hg). rewrite Hok. simpl.
      rewrite (string_response_truthy _ _ Hg), Hg. done.
  - by intros response -> ->.
  - by intros e ->.
  - by intros response e -> -> ->.
  - intros response data -> -> -> Hn. simpl.
    destruct (truthy_value data); simpl; [|done].
    destruct (get data f_response) as [v|] eqn:Hg; [|done].
    destruct (is_string v) eqn:Hs; [|done].
    apply is_string_inv in Hs as [s ->]. by destruct (Hn s).
Qed.

(** The message of the server error: the status, and the body only when
    one could be read and is not empty. *)
Lemma server_error_message (response : Response) :
  message (server_error response)
  = lit "Server error " ++ decimal (status response)
    ++ match response_text response with
       | Returns body => if nonempty body then lit ": " ++ body else []
       | Throws _ => []
       end.
Proof. unfold server_error. simpl. by destruct (response_text response). Qed.

(** X6. [generatePortfolioReport] checks the status and nothing else: on
    an ok reply it returns whatever the body parses to, [null] and values
    without a status or message included, and it throws exactly when the
    request fails, the reply is not ok, or the body cannot be read or
    parsed. *)
Theorem generatePortfolioReport_returns_any_json :
  (∀ data, generatePortfolioReport JSON_parse report_reply = Returns data ↔
     ∃ response,
       report_reply = Returns response ∧ ok response = true
       ∧ json JSON_parse response = Returns data)
  ∧ (∀ e, generatePortfolioReport JSON_parse report_reply = Throws e ↔
       report_reply = Throws e
       ∨ (∃ response,
            report_reply = Returns response
            ∧ ((ok response = false ∧ e = server_error response)
               ∨ (ok response = true
                  ∧ json JSON_parse response = Throws e)))).
Proof.
  unfold generatePortfolioReport. split; intros x; split.
  - destruct report_reply as [response|e]; [|done].
    destruct (ok response) eqn:Hok; simpl; [|done]. eauto.
  - by intros (response & -> & -> & ->).
  - destruct report_reply as [response|e]; [|intros [= ->]; by left].
    destruct (ok response) eqn:Hok; simpl.
    + intros Hj. right. exists response. split; [done|]. by right.
    + intros [= <-]. right. exists response. split; [done|]. by left.
  - intros [->|(response & -> & [[-> ->]|[-> ->]])]; done.
Qed.

End ApiMoreFacts.

(** ** The reports page *)
Section ReportsFacts.
Import JS Api ApiMore Reports.
Variable JSON_parse : jsstring -> outcome JValue.
Variable report_reply : outcome Response.

(** X7. After [run] the page is not loading, and exactly one of four
    things holds: the error panel is shown, with a text that is not
    empty, exactly when the report request threw; the success panel
    exactly when it returned a truthy value whose message can be
    rendered; the initial "ready" panel again exactly when it returned a
    falsy value (null, false, 0 or the empty string); and when it
    returned a truthy value whose message is an object, or an array
    holding one, the render throws and no panel is shown. *)
Theorem run_shows_one_panel_or_none (st : Reports.State) :
  let st' := run JSON_parse report_reply st in
  loading st' = false
  ∧ (error_panel st' = true ↔
       ∃ e, generatePortfolioReport JSON_parse report_reply = Throws e)
  ∧ (∀ m, error st' = Some m → m ≠ [])
  ∧ (success_panel st' = true ↔
       ∃ data, generatePortfolioReport JSON_parse report_reply = Returns data
               ∧ truthy_value data = true ∧ message_renders data = true)
  ∧ (ready_panel st' = true ↔
       ∃ data, generatePortfolioReport JSON_parse report_reply = Returns data
               ∧ truthy_value data = false)
  ∧ (crashes st' = true ↔
       ∃ data, generatePortfolioReport JSON_parse report_reply = Returns data
               ∧ truthy_value data = true ∧ message_renders data = false)
  ∧ (error_panel st' = true ∧ success_panel st' = false
       ∧ ready_panel st' = false ∧ crashes st' = false
     ∨ error_panel st' = false ∧ success_panel st' = true
       ∧ ready_panel st' = false ∧ crashes st' = false
     ∨ error_panel st' = false ∧ success_panel st' = false
       ∧ ready_panel st' = true ∧ crashes st' = false
     ∨ error_panel st' = false ∧ success_panel st' = false
       ∧ ready_panel st' = false ∧ crashes st' = true).
Proof.
  unfold run, ready_panel, error_panel, success_panel, crashes.
  destruct (generatePortfolioReport JSON_parse report_reply) as [data|e];
    cbn [loading reportStatus error].
  - rewrite !andb_false_r. split; [done|].
    split; [split; [done|by intros [? ?]]|]. split; [done|].
    destruct (truthy_value data) eqn:Ht;
      destruct (message_renders data) eqn:Hr; cbn [negb andb].
    + split; [split; eauto|].
      split; [split; [done|intros (d & [= <-] & Hd); congruence]|].
      split; [split; [done|intros (d & [= <-] & _ & Hd); congruence]|].
      right. by left.
    + split; [split; [done|intros (d & [= <-] & _ & Hd); congruence]|].
      split; [split; [done|intros (d & [= <-] & Hd); congruence]|].
      split; [split; eauto|]. by do 3 right.
    + split; [split; [done|intros (d & [= <-] & Hd & _); congruence]|].
      split; [split; eauto|].
      split; [split; [done|intros (d & [= <-] & Hd & _); congruence]|].
      right. right. by left.
    + split; [split; [done|intros (d & [= <-] & Hd & _); congruence]|].
      split; [split; eauto|].
      split; [split; [done|intros (d & [= <-] & Hd & _); congruence]|].
      right. right. by left.
  - assert (nonempty (if nonempty (message e) then message e
                      else lit "Failed to generate report") = true) as Hne.
    { by destruct (nonempty (message e)) eqn:E. }
    rewrite Hne. cbn [truthy_value negb andb].
    split; [done|]. split; [split; eauto|].
    split. { intros m [= <-]. by apply nonempty_true. }
    split; [split; [done|by intros (? & ? & _)]|].
    split; [split; [done|by intros (? & ? & _)]|].
    split; [split; [done|by intros (? & ? & _)]|]. by left.
Qed.

(** A report whose message is an object takes the page down; one whose
    message is a text shows the success panel. *)
Example report_with_object_message_crashes :
  crashes (Reports.mkState false SampleMore.report_odd None) = true
  ∧ success_panel (Reports.mkState false SampleMore.report_odd None) = false
  ∧ success_panel (Reports.mkState false SampleMore.report_sent None) = true.
Proof. vm_compute. done. Qed.

End ReportsFacts.

(** ** String conversion *)
Section ConvFacts.
Import JS Conv.
Variable Number_toString : float -> jsstring.

(** Induction on a JSON value, with the property known of the elements
    of an array. *)
Lemma JValue_elements_ind (P : JValue → Prop) :
  P JNull → (∀ b, P (JBool b)) → (∀ x, P (JNum x)) → (∀ s, P (JStr s)) →
  (∀ xs, Forall P xs → P (JArr xs)) → (∀ fields, P (JObj fields)) →
  ∀ v, P v.
Proof.
  intros Hnull Hbool Hnum Hstr Harr Hobj. fix IH 1.
  intros [|b|x|s|xs|fields]; [done..| |done].
  apply Harr. induction xs as [|x xs IHxs]; [apply Forall_nil_2|].
  apply Forall_cons_2; [apply IH|apply IHxs].
Qed.

(** The conversion gives a string exactly for the values [convertible]
    accepts. *)
Lemma ToString_convertible (v : JValue) :
  is_Some (ToString Number_toString v) ↔ convertible_value v = true.
Proof.
  induction v as [|b|x|s|xs IH|fields] using JValue_elements_ind;
    cbn [ToString convertible_value]; try (split; [done|by eexists]).
  - induction xs as [|x xs IHxs]; [split; [done|by eexists]|].
    apply Forall_cons in IH as [Hx Hxs]. specialize (IHxs Hxs).
    cbn [forallb]. rewrite andb_true_iff, <- Hx, <- IHxs.
    rewrite fmap_is_Some in IHxs. rewrite fmap_is_Some.
    assert (is_Some (match x with
                     | JNull => Some []
                     | _ => ToString Number_toString x
                     end)
            ↔ is_Some (ToString Number_toString x)) as Hnull.
    { destruct x; simpl; split; intros H; (exact H || by eexists). }
    rewrite <- Hnull.
    destruct (match x with JNull => Some [] | _ => ToString Number_toString x end)
      as [part|];
      destruct ((fix elements (xs : list JValue) := _) xs) as [parts|];
      (split; [intros [? ?]|intros [[? ?] [? ?]]]); try done; try by eexists.
  - destruct (has_own fields (lit "toString")); simpl; split; try done;
      try by eexists.
Qed.

Lemma ToString_val_convertible (v : jsval) :
  is_Some (ToString_val Number_toString v) ↔ convertible v = true.
Proof. destruct v; [split; [done|by eexists]|apply ToString_convertible]. Qed.

Lemma ToString_val_None (v : jsval) :
  ToString_val Number_toString v = None ↔ convertible v = false.
Proof.
  rewrite <- not_true_iff_false, <- ToString_val_convertible.
  by rewrite eq_None_not_Some.
Qed.

End ConvFacts.

(** ** The portfolio chat page *)
Section PortfolioFacts.
Import JS Api Transcript Conv ApiMore PortfolioPage.
Variable JSON_parse : jsstring -> outcome JValue.
Variable fetch : Request -> outcome Response.
Variable Number_toString : float -> jsstring.

Lemma lastMsg_snoc (m : Msgs) (x : option Msg) : lastMsg (m ++ [x]) = x.
Proof. unfold lastMsg. by rewrite last_snoc. Qed.

Lemma insert_last (m : Msgs) (x y : option Msg) :
  <[length (m ++ [x]) - 1 := y]> (m ++ [x]) = m ++ [y].
Proof.
  rewrite length_app. simpl.
  replace (length m + 1 - 1) with (length m + 0) by lia.
  by rewrite insert_app_r.
Qed.

Lemma play_app prefix clock n evs1 evs2 r :
  play Number_toString prefix clock n (evs1 ++ evs2) r
  = play Number_toString prefix clock (n + length evs1) evs2
      (play Number_toString prefix clock n evs1 r).
Proof.
  revert n r. induction evs1 as [|ev evs1 IH]; intros n r; simpl.
  - by rewrite Nat.add_0_r.
  - rewrite IH. by replace (S n + length evs1) with (n + S (length evs1)) by lia.
Qed.

Lemma texts_cons (c : jsval) (chunks : list jsval) :
  omap (ToString_val Number_toString) (c :: chunks)
  = match ToString_val Number_toString c with
    | Some chunk_text =>
        chunk_text :: omap (ToString_val Number_toString) chunks
    | None => omap (ToString_val Number_toString) chunks
    end.
Proof. done. Qed.

(** A chunk that cannot be converted is skipped by [streamed], and the
    calls after it are one later. *)
Lemma streamed_skip c chunks clock flag :
  ToString_val Number_toString c = None →
  streamed Number_toString (c :: chunks) clock flag
  = streamed Number_toString chunks (λ k, clock (S k)) flag.
Proof.
  intros Hc. unfold streamed, first_convertible. rewrite texts_cons, Hc.
  cbn [list_find]. apply ToString_val_None in Hc.
  rewrite decide_False by by rewrite Hc.
  by destruct (list_find _ chunks) as [[k x]|].
Qed.

Lemma streamed_first c chunks clock flag chunk_text :
  ToString_val Number_toString c = Some chunk_text →
  streamed Number_toString (c :: chunks) clock flag
  = [Some (mkMsg (Some bot)
             (chunk_text
              ++ concat (omap (ToString_val Number_toString) chunks))
             (clock 0) flag)].
Proof.
  intros Hc. unfold streamed, first_convertible. rewrite texts_cons, Hc.
  cbn [list_find]. rewrite decide_True; [done|].
  apply (ToString_val_convertible Number_toString). by rewrite Hc.
Qed.

(** Chunks that arrive while the last message is a streaming bot message
    replace its text by the text so far. *)
Lemma play_chunks_streaming prefix clock n chunks (m0 : Msgs) t ts ld acc :
  play Number_toString prefix clock n (OnChunk <$> chunks)
    (mkRun (mkState (m0 ++ [Some (mkMsg (Some bot) t ts true)]) ld) acc)
  = mkRun
      (mkState
         (m0 ++ [Some (mkMsg (Some bot)
                         (match omap (ToString_val Number_toString) chunks with
                          | [] => t
                          | _ :: _ =>
                              acc ++ concat (omap (ToString_val Number_toString)
                                               chunks)
                          end) ts true)]) ld)
      (acc ++ concat (omap (ToString_val Number_toString) chunks)).
Proof.
  revert n t acc. induction chunks as [|c chunks IH]; intros n t acc.
  - simpl. by rewrite app_nil_r.
  - rewrite fmap_cons, texts_cons. cbn [play callback]. unfold onChunk_.
    destruct (ToString_val Number_toString c) as [chunk_text|]; [|apply IH].
    cbn [page msgs botResponse loading]. rewrite lastMsg_snoc.
    cbn [is_bot role streaming andb timestamp]. rewrite insert_last.
    rewrite IH. cbn [concat]. rewrite <- !app_assoc.
    destruct (omap _ chunks); [|done].
    simpl. by rewrite !app_nil_r.
Qed.

(** The first chunk that can be converted pushes a streaming bot message
    when the last message is not one. *)
Lemma play_chunks prefix clock n chunks (st : State) :
  (∀ l, lastMsg (msgs st) = Some l → is_bot l && streaming l = false) →
  play Number_toString prefix clock n (OnChunk <$> chunks) (mkRun st [])
  = mkRun
      (mkState
         (msgs st
          ++ streamed Number_toString chunks (λ k, clock (n + k)) true)
         (loading st))
      (concat (omap (ToString_val Number_toString) chunks)).
Proof.
  intros Hlast. revert n. induction chunks as [|c chunks IH]; intros n.
  - simpl. rewrite app_nil_r. by destruct st.
  - rewrite fmap_cons, texts_cons. cbn [play callback]. unfold onChunk_.
    destruct (ToString_val Number_toString c) as [chunk_text|] eqn:Hc.
    + cbn [page msgs botResponse loading app].
      assert (match lastMsg (msgs st) with
              | Some l =>
                  if is_bot l && streaming l
                  then <[length (msgs st) - 1 :=
                           Some (mkMsg (role l) chunk_text
                                   (timestamp l) (streaming l))]> (msgs st)
                  else msgs st ++ [Some (mkMsg (Some bot) chunk_text
                                           (clock n) true)]
              | None => msgs st ++ [Some (mkMsg (Some bot) chunk_text
                                            (clock n) true)]
              end
              = msgs st ++ [Some (mkMsg (Some bot) chunk_text
                                    (clock n) true)]) as ->.
      { destruct (lastMsg (msgs st)) as [l|] eqn:E; [|done].
        by rewrite (Hlast l eq_refl). }
      rewrite play_chunks_streaming, (streamed_first _ _ _ _ _ Hc).
      rewrite Nat.add_0_r. cbn [concat].
      destruct (omap _ chunks); [|done]. simpl. by rewrite !app_nil_r.
    + rewrite IH, (streamed_skip _ _ _ _ Hc).
      do 3 f_equal. unfold streamed.
      destruct (first_convertible chunks) as [k|]; [|done].
      by replace (S n + k) with (n + S k) by lia.
Qed.

(** After [handleSend]'s own push the last message is the user's. *)
Lemma after_user_push (st : State) (q : jsstring) (t : N) :
  ∀ l, lastMsg (msgs (setLoading (push st (mkMsg (Some user) q t false)) true))
       = Some l →
       is_bot l && streaming l = false.
Proof. simpl. rewrite lastMsg_snoc. by intros l [= <-]. Qed.

Lemma streamed_last_flag chunks clock (m : Msgs) :
  (∀ l, lastMsg m = Some l → streaming l = false) →
  match lastMsg (m ++ streamed Number_toString chunks clock true) with
  | Some l =>
      if streaming l
      then <[length (m ++ streamed Number_toString chunks clock true) - 1 :=
               Some (mkMsg (role l) (text l) (timestamp l) false)]>
             (m ++ streamed Number_toString chunks clock true)
      else m ++ streamed Number_toString chunks clock true
  | None => m ++ streamed Number_toString chunks clock true
  end
  = m ++ streamed Number_toString chunks clock false.
Proof.
  intros Hm. unfold streamed. destruct (first_convertible chunks) as [k|].
  - rewrite lastMsg_snoc. cbn [streaming role text timestamp].
    by rewrite insert_last.
  - rewrite app_nil_r. destruct (lastMsg m) as [l|] eqn:E; [|done].
    by rewrite (Hm l eq_refl).
Qed.

(** What [stream_reply] leaves for each of the three ways the stream
    function ends. *)
Lemma stream_reply_completed prefix st query clock t_catch chunks :
  (∀ l, lastMsg (msgs st) = Some l → is_bot l && streaming l = false) →
  (∀ l, lastMsg (msgs st) = Some l → streaming l = false) →
  portfolioChatbotStream JSON_parse fetch all_supplied query
  = ((OnChunk <$> chunks) ++ [OnComplete], Returns tt) →
  stream_reply JSON_parse fetch Number_toString prefix st query clock t_catch
  = mkState (msgs st ++ streamed Number_toString chunks clock false) false.
Proof.
  intros Hbot Hflag Hrun. unfold stream_reply. rewrite Hrun.
  rewrite play_app, play_chunks by done.
  cbn [play callback]. unfold onComplete_. cbn [page msgs botResponse].
  by rewrite streamed_last_flag.
Qed.

Lemma stream_reply_error_chunk prefix st query clock t_catch chunks v :
  (∀ l, lastMsg (msgs st) = Some l → is_bot l && streaming l = false) →
  portfolioChatbotStream JSON_parse fetch all_supplied query
  = ((OnChunk <$> chunks) ++ [OnError (ChunkError v)], Returns tt) →
  stream_reply JSON_parse fetch Number_toString prefix st query clock t_catch
  = mkState
      (msgs st ++ streamed Number_toString chunks clock true
       ++ [Some (mkMsg (Some bot)
                   (friendly prefix
                      (error_message Number_toString (ChunkError v)))
                   (clock (length chunks)) false)])
      false.
Proof.
  intros Hbot Hrun. unfold stream_reply. rewrite Hrun.
  rewrite play_app, play_chunks by done.
  cbn [play callback]. unfold onError_, push, setLoading.
  cbn [page msgs botResponse loading].
  rewrite length_fmap, <- app_assoc. done.
Qed.

Lemma stream_reply_thrown prefix st query clock t_catch chunks e :
  (∀ l, lastMsg (msgs st) = Some l → is_bot l && streaming l = false) →
  portfolioChatbotStream JSON_parse fetch all_supplied query
  = ((OnChunk <$> chunks) ++ [OnError (Caught e)], Throws e) →
  stream_reply JSON_parse fetch Number_toString prefix st query clock t_catch
  = mkState
      (msgs st ++ streamed Number_toString chunks clock true
       ++ [Some (mkMsg (Some bot) (friendly prefix (message e))
                   (clock (length chunks)) false);
           Some (mkMsg (Some bot) (friendly prefix (message e))
                   t_catch false)])
      false.
Proof.
  intros Hbot Hrun. unfold stream_reply. rewrite Hrun.
  rewrite play_app, play_chunks by done.
  cbn [play callback]. unfold onError_, push, setLoading.
  cbn [page msgs botResponse loading error_message].
  rewrite length_fmap, <- !app_assoc. done.
Qed.

(** The error of a chunk that ends a run could be converted. *)
Lemma chunk_error_converts query chunks v res :
  portfolioChatbotStream JSON_parse fetch all_supplied query
  = ((OnChunk <$> chunks) ++ [OnError (ChunkError v)], res) →
  ∃ error_text,
    ToString_val Number_toString v = Some error_text
    ∧ error_message Number_toString (ChunkError v) = error_text.
Proof.
  intros Hrun.
  destruct (stream_run_shape JSON_parse fetch query)
    as (chunks' & l & _ & Hevs & Hend).
  rewrite Hrun in Hevs, Hend. cbn [fst snd] in Hevs, Hend.
  apply app_inj_tail in Hevs as [_ <-].
  destruct Hend as [[? _]|[(v' & _ & Hconv & [= <-] & _)|(e & ? & _)]];
    [done| |done].
  apply (ToString_val_convertible Number_toString) in Hconv as [s Hs].
  exists s. split; [done|]. unfold error_message. by rewrite Hs.
Qed.

End PortfolioFacts.

Section PortfolioClaims.
Import JS Api Transcript Conv ApiMore PortfolioPage.
Variable JSON_parse : jsstring -> outcome JValue.
Variable fetch : Request -> outcome Response.
Variable Number_toString : float -> jsstring.

Lemma streamed_none chunks clock flag :
  Forall (λ c, convertible c = false) chunks →
  streamed Number_toString chunks clock flag = [].
Proof.
  intros Hall. unfold streamed, first_convertible.
  rewrite (proj2 (list_find_None _ chunks)); [done|].
  eapply Forall_impl; [exact Hall|]. intros c Hc. by rewrite Hc.
Qed.

(** What [handleSend] leaves for each of the three ways a run ends. *)
Lemma handleSend_on_complete st q t_user clock t_catch chunks :
  portfolioChatbotStream JSON_parse fetch all_supplied q
  = ((OnChunk <$> chunks) ++ [OnComplete], Returns tt) →
  handleSend JSON_parse fetch Number_toString st q t_user clock t_catch
  = mkState
      (msgs st ++ [Some (mkMsg (Some user) q t_user false)]
       ++ streamed Number_toString chunks clock false)
      false.
Proof.
  intros Hrun. unfold handleSend.
  rewrite (stream_reply_completed _ _ _ _ _ _ _ _ chunks);
    [|apply after_user_push| |done].
  - simpl. by rewrite <- app_assoc.
  - simpl. rewrite lastMsg_snoc. by intros l [= <-].
Qed.

Lemma handleSend_on_error_chunk st q t_user clock t_catch chunks v :
  portfolioChatbotStream JSON_parse fetch all_supplied q
  = ((OnChunk <$> chunks) ++ [OnError (ChunkError v)], Returns tt) →
  handleSend JSON_parse fetch Number_toString st q t_user clock t_catch
  = mkState
      (msgs st ++ [Some (mkMsg (Some user) q t_user false)]
       ++ streamed Number_toString chunks clock true
       ++ [Some (mkMsg (Some bot)
                   (friendly send_prefix
                      (error_message Number_toString (ChunkError v)))
                   (clock (length chunks)) false)])
      false.
Proof.
  intros Hrun. unfold handleSend.
  rewrite (stream_reply_error_chunk _ _ _ _ _ _ _ _ chunks v);
    [|apply after_user_push|done].
  simpl. by rewrite <- app_assoc.
Qed.

Lemma handleSend_on_throw st q t_user clock t_catch chunks e :
  portfolioChatbotStream JSON_parse fetch all_supplied q
  = ((OnChunk <$> chunks) ++ [OnError (Caught e)], Throws e) →
  handleSend JSON_parse fetch Number_toString st q t_user clock t_catch
  = mkState
      (msgs st ++ [Some (mkMsg (Some user) q t_user false)]
       ++ streamed Number_toString chunks clock true
       ++ [Some (mkMsg (Some bot) (friendly send_prefix (message e))
                   (clock (length chunks)) false);
           Some (mkMsg (Some bot) (friendly send_prefix (message e))
                   t_catch false)])
      false.
Proof.
  intros Hrun. unfold handleSend.
  rewrite (stream_reply_thrown _ _ _ _ _ _ _ _ chunks e);
    [|apply after_user_push|done].
  simpl. by rewrite <- app_assoc.
Qed.

(** X8. When the stream ends with its end-of-stream marker, [handleSend]
    of the portfolio page leaves loading off and the transcript extended
    by the user message and by at most one bot message, no longer marked
    as streaming: it holds, in a row, the texts of the content chunks
    that could be converted to a string, and is stamped at the first of
    them.  A chunk that cannot be converted (an object with an own
    toString property, or an array holding one) adds nothing; when no
    chunk could be converted, no bot message is added at all. *)
Theorem portfolio_send_completed
  (st : Transcript.State) (q : JS.jsstring) (t_user : N)
  (clock : nat -> N) (t_catch : N) (chunks : list JS.jsval) :
  portfolioChatbotStream JSON_parse fetch all_supplied q
  = ((OnChunk <$> chunks) ++ [OnComplete], Returns tt) →
  handleSend JSON_parse fetch Number_toString st q t_user clock t_catch
  = mkState
      (msgs st ++ [Some (mkMsg (Some user) q t_user false)]
       ++ streamed Number_toString chunks clock false)
      false
  ∧ (Forall (λ c, convertible c = false) chunks →
     msgs (handleSend JSON_parse fetch Number_toString st q t_user clock t_catch)
     = msgs st ++ [Some (mkMsg (Some user) q t_user false)])
  ∧ (∀ c rest chunk_text,
       chunks = c :: rest →
       ToString_val Number_toString c = Some chunk_text →
       msgs (handleSend JSON_parse fetch Number_toString st q t_user clock
               t_catch)
       = msgs st
         ++ [Some (mkMsg (Some user) q t_user false);
             Some (mkMsg (Some bot)
                     (chunk_text
                      ++ concat (omap (ToString_val Number_toString) rest))
                     (clock 0) false)]).
Proof.
  intros Hrun.
  rewrite (handleSend_on_complete st q t_user clock t_catch chunks Hrun).
  split; [done|]. split.
  - intros Hnone. cbn [msgs]. by rewrite streamed_none.
  - intros c rest chunk_text -> Hc. cbn [msgs].
    by rewrite (streamed_first _ _ _ _ _ _ Hc).
Qed.

(** X9. When the stream function rethrows (the request failed, the reply
    was not ok, or a read failed), [handleSend] of the portfolio page
    shows the same friendly sentence twice, once pushed by its onError
    callback and once by its catch block, after the user message and
    whatever was streamed, which stays marked as streaming; loading is
    off. *)
Theorem portfolio_failure_is_shown_twice
  (st : Transcript.State) (q : JS.jsstring) (t_user : N)
  (clock : nat -> N) (t_catch : N) (e : JS.exn) :
  (portfolioChatbotStream JSON_parse fetch all_supplied q).2 = Throws e →
  ∃ chunks,
    (portfolioChatbotStream JSON_parse fetch all_supplied q).1
    = (OnChunk <$> chunks) ++ [OnError (Caught e)]
    ∧ handleSend JSON_parse fetch Number_toString st q t_user clock t_catch
      = mkState
          (msgs st ++ [Some (mkMsg (Some user) q t_user false)]
           ++ streamed Number_toString chunks clock true
           ++ [Some (mkMsg (Some bot) (friendly send_prefix (message e))
                       (clock (length chunks)) false);
               Some (mkMsg (Some bot) (friendly send_prefix (message e))
                       t_catch false)])
          false.
Proof.
  intros Hres.
  destruct (stream_run_shape JSON_parse fetch q)
    as (chunks & l & _ & Hevs & Hend).
  rewrite Hres in Hend.
  destruct Hend as [[_ ?]|[(v & _ & _ & _ & ?)|(e' & -> & [= <-])]];
    [done|done|].
  exists chunks. split; [done|]. apply handleSend_on_throw.
  rewrite (surjective_pairing (portfolioChatbotStream _ _ _ _)).
  by rewrite Hevs, Hres.
Qed.

(** X10. When the stream ends with an error chunk (its error could be
    converted to a string, or the stream function would have skipped
    it), [handleSend] of the portfolio page shows the friendly sentence
    once, with the chunk's error as a string in brackets, after the user
    message and whatever was streamed before, which stays marked as
    streaming; loading is off. *)
Theorem portfolio_error_chunk_is_shown_once
  (st : Transcript.State) (q : JS.jsstring) (t_user : N)
  (clock : nat -> N) (t_catch : N) (chunks : list JS.jsval) (v : JS.jsval) :
  portfolioChatbotStream JSON_parse fetch all_supplied q
  = ((OnChunk <$> chunks) ++ [OnError (ChunkError v)], Returns tt) →
  ∃ error_text,
    ToString_val Number_toString v = Some error_text
    ∧ handleSend JSON_parse fetch Number_toString st q t_user clock t_catch
      = mkState
          (msgs st ++ [Some (mkMsg (Some user) q t_user false)]
           ++ streamed Number_toString chunks clock true
           ++ [Some (mkMsg (Some bot) (friendly send_prefix error_text)
                       (clock (length chunks)) false)])
          false.
Proof.
  intros Hrun.
  destruct (chunk_error_converts JSON_parse fetch Number_toString _ _ _ _ Hrun)
    as (error_text & Hv & Hm).
  exists error_text. split; [done|].
  rewrite (handleSend_on_error_chunk st q t_user clock t_catch chunks v Hrun).
  by rewrite Hm.
Qed.

(** X11. Every [handleSend] of the portfolio page ends with loading
    switched off, and the transcript it leaves starts with the earlier
    transcript followed by the user message: nothing that was shown
    before is changed or removed. *)
Theorem portfolio_send_settles
  (st : Transcript.State) (q : JS.jsstring) (t_user : N)
  (clock : nat -> N) (t_catch : N) :
  loading (handleSend JSON_parse fetch Number_toString st q t_user clock t_catch)
  = false
  ∧ (msgs st ++ [Some (mkMsg (Some user) q t_user false)])
    `prefix_of`
    msgs (handleSend JSON_parse fetch Number_toString st q t_user clock t_catch).
Proof.
  destruct (stream_run_shape JSON_parse fetch q)
    as (chunks & l & _ & Hevs & Hend).
  assert (portfolioChatbotStream JSON_parse fetch all_supplied q
          = ((OnChunk <$> chunks) ++ [l],
             (portfolioChatbotStream JSON_parse fetch all_supplied q).2))
    as Hrun.
  { rewrite <- Hevs. apply surjective_pairing. }
  destruct Hend as [[-> Hr]|[(v & _ & _ & -> & Hr)|(e & -> & Hr)]];
    rewrite Hr in Hrun.
  - rewrite (handleSend_on_complete st q t_user clock t_catch chunks Hrun).
    split; [done|]. cbn [msgs]. rewrite (app_assoc (msgs st)).
    by apply prefix_app_r.
  - rewrite (handleSend_on_error_chunk st q t_user clock t_catch chunks v Hrun).
    split; [done|]. cbn [msgs]. rewrite (app_assoc (msgs st)).
    by apply prefix_app_r.
  - rewrite (handleSend_on_throw st q t_user clock t_catch chunks e Hrun).
    split; [done|]. cbn [msgs]. rewrite (app_assoc (msgs st)).
    by apply prefix_app_r.
Qed.

Lemma init_play_chunks clock n chunks c :
  init_play Number_toString clock n (OnChunk <$> chunks) c = c.
Proof.
  revert n. induction chunks as [|x chunks IH]; intros n; simpl; [done|].
  apply IH.
Qed.

Lemma init_play_app clock n evs1 evs2 c :
  init_play Number_toString clock n (evs1 ++ evs2) c
  = init_play Number_toString clock (n + length evs1) evs2
      (init_play Number_toString clock n evs1 c).
Proof.
  revert n c. induction evs1 as [|ev evs1 IH]; intros n c; simpl.
  - by rewrite Nat.add_0_r.
  - rewrite IH. by replace (S n + length evs1) with (n + S (length evs1)) by lia.
Qed.

(** X12. [initializePortfolio] always ends with initializing switched
    off and exactly one bot message added, and which one is decided by
    the way the stream ends, content chunks being ignored: when its
    last call is onComplete the message is "Portfolio connected! ..."
    and no authentication error is recorded; when it is onError with
    the error of a chunk the message is "Failed to connect ..." and the
    chunk's error, as a string, is recorded; when it is onError with a
    caught error, which the stream function rethrows, the message is
    "Failed to connect ..." and the caught error's message is recorded.
    No error text reaches the transcript. *)
Theorem initializePortfolio_adds_one_fixed_sentence
  (c : PortfolioPage.Connection) (clock : nat -> N) :
  let c' := initializePortfolio JSON_parse fetch Number_toString c clock in
  ∃ chunks last_call,
    (portfolioChatbotStream JSON_parse fetch all_supplied (lit "initialize")).1
    = (OnChunk <$> chunks) ++ [last_call]
    ∧ initializing c' = false
    ∧ loading (chat c') = loading (chat c)
    ∧ match last_call with
      | OnComplete =>
          msgs (chat c')
          = msgs (chat c)
            ++ [Some (mkMsg (Some bot) connected (clock (length chunks))
                        false)]
          ∧ authError c' = None
      | OnError (ChunkError v) =>
          msgs (chat c')
          = msgs (chat c)
            ++ [Some (mkMsg (Some bot) not_connected (clock (length chunks))
                        false)]
          ∧ ∃ error_text,
              ToString_val Number_toString v = Some error_text
              ∧ authError c' = Some error_text
      | OnError (Caught e) =>
          msgs (chat c')
          = msgs (chat c)
            ++ [Some (mkMsg (Some bot) not_connected (clock (length chunks))
                        false)]
          ∧ authError c' = Some (message e)
      | OnChunk _ => False
      end.
Proof.
  cbn zeta. unfold initializePortfolio.
  destruct (stream_run_shape JSON_parse fetch (lit "initialize"))
    as (chunks & l & _ & Hevs & Hend).
  exists chunks, l. split; [done|].
  destruct (portfolioChatbotStream JSON_parse fetch all_supplied
              (lit "initialize")) as [evs res] eqn:Hrun.
  cbn [fst snd] in Hevs, Hend. subst evs.
  rewrite init_play_app, init_play_chunks, length_fmap. cbn [init_play].
  destruct Hend as [[-> ->]|[(v & _ & _ & -> & ->)|(e & -> & ->)]];
    cbn [init_callback chat initializing authError push msgs loading].
  - done.
  - split; [done|]. split; [done|]. split; [done|].
    destruct (chunk_error_converts JSON_parse fetch Number_toString _ _ _ _
                Hrun) as (error_text & Hv & Hm).
    exists error_text. split; [done|]. by rewrite Hm.
  - done.
Qed.

End PortfolioClaims.

(** ** Trimming *)
Section TrimFacts.
Import JS.

Lemma trimStart_fixed (c : N) (r : jsstring) :
  is_white_space c = false → trimStart (c :: r) = c :: r.
Proof. intros Hc. simpl. by rewrite Hc. Qed.

Lemma trimStart_app_nonws (s t : jsstring) (c : N) (r : jsstring) :
  trimStart s = c :: r → trimStart (s ++ t) = trimStart s ++ t.
Proof.
  induction s as [|d s IH]; simpl; [done|].
  destruct (is_white_space d); [exact IH|done].
Qed.

Lemma trimStart_pad (p s : jsstring) :
  forallb is_white_space p = true → trimStart (p ++ s) = trimStart s.
Proof.
  induction p as [|d p IH]; simpl; [done|].
  intros [Hd Hp]%andb_true_iff. rewrite Hd. by apply IH.
Qed.

Lemma trimEnd_nil : trimEnd [] = [].
Proof. done. Qed.

Lemma trimEnd_cons_nonws (c : N) (r : jsstring) :
  is_white_space c = false → trimEnd (c :: r) = c :: trimEnd r.
Proof.
  intros Hc. unfold trimEnd. rewrite reverse_cons.
  destruct (trimStart (reverse r)) as [|d t] eqn:E.
  - rewrite (trimStart_pad (reverse r) [c]) by by apply trimStart_nil_iff.
    by rewrite trimStart_fixed.
  - rewrite (trimStart_app_nonws _ _ d t E), E.
    by rewrite reverse_app.
Qed.

Lemma trimEnd_pad (s p : jsstring) :
  forallb is_white_space p = true → trimEnd (s ++ p) = trimEnd s.
Proof.
  intros Hp. unfold trimEnd. rewrite reverse_app.
  rewrite trimStart_pad; [done|]. by rewrite forallb_reverse_ws.
Qed.

Lemma trimEnd_idempotent (s : jsstring) : trimEnd (trimEnd s) = trimEnd s.
Proof.
  unfold trimEnd. rewrite reverse_involutive.
  destruct (trimStart (reverse s)) as [|c r] eqn:E; [done|].
  by rewrite (trimStart_fixed c r (trimStart_head _ _ _ E)).
Qed.

(** Trimming what is trimmed changes nothing. *)
Lemma trim_idempotent (s : jsstring) : trim (trim s) = trim s.
Proof.
  unfold trim. destruct (trimStart s) as [|c r] eqn:E; [done|].
  pose proof (trimStart_head _ _ _ E) as Hc.
  rewrite (trimEnd_cons_nonws c r Hc), (trimStart_fixed c _ Hc).
  by rewrite (trimEnd_cons_nonws c _ Hc), trimEnd_idempotent.
Qed.

(** White space around a text does not survive trimming. *)
Lemma trim_pad (p1 s p2 : jsstring) :
  forallb is_white_space p1 = true → forallb is_white_space p2 = true →
  trim (p1 ++ s ++ p2) = trim s.
Proof.
  intros H1 H2. unfold trim. rewrite trimStart_pad by done.
  destruct (trimStart s) as [|c r] eqn:E.
  - apply trimStart_nil_iff in E.
    rewrite (proj2 (trimStart_nil_iff (s ++ p2))); [done|].
    rewrite forallb_app. by rewrite E, H2.
  - rewrite (trimStart_app_nonws _ _ c r E), E. by apply trimEnd_pad.
Qed.

End TrimFacts.

(** ** Saving an edit *)
Section EditBoxFacts.
Import JS Transcript.
Variable JSON_parse : jsstring -> outcome JValue.
Variable fetch : Request -> outcome Response.

(** X13. A message that went out through the chat input is sent back
    for editing only when its text really changes: saving the edit box
    with the text unchanged, or changed only by white space added around
    it, calls onEdit not at all; in every case the edit box is closed. *)
Theorem saving_an_unchanged_message_does_nothing
  (input text p1 p2 : JS.jsstring) (loading : bool) :
  ChatInput.sent (ChatInput.submit input loading) = Some text →
  forallb is_white_space p1 = true →
  forallb is_white_space p2 = true →
  ChatMessage.handleSaveEdit text (ChatMessage.mkState true (p1 ++ text ++ p2))
  = (None, ChatMessage.mkState false (p1 ++ text ++ p2))
  ∧ ChatMessage.handleSaveEdit text (ChatMessage.mkState true text)
    = (None, ChatMessage.mkState false text).
Proof.
  intros Hsent H1 H2. apply submit_sent in Hsent as (-> & _ & _).
  unfold ChatMessage.handleSaveEdit. simpl.
  rewrite (trim_pad p1 (trim input) p2 H1 H2), !trim_idempotent.
  by rewrite !decide_True.
Qed.

(** The whole of [handleEdit] on the market page. *)
Lemma market_handleEdit_msgs (st : State) (i : nat) (m : Msg)
  (newText : jsstring) (t_edit t_bot : N) :
  msgs st !! i = Some (Some m) →
  MarketChat.handleEdit JSON_parse fetch st i newText t_edit t_bot
  = mkState
      (take i (msgs st)
       ++ [Some (mkMsg (role m) newText t_edit (streaming m));
           Some (mkMsg (Some bot)
                   (MarketChat.reply_text JSON_parse fetch newText)
                   t_bot false)])
      false.
Proof.
  intros Hi. unfold MarketChat.handleEdit, MarketChat.handleEdit_begin.
  unfold MarketChat.reply, push, setLoading. cbn [msgs loading].
  rewrite (edited_in_range _ _ _ _ _ Hi). by rewrite <- app_assoc.
Qed.

(** X14. The edit box has no guard against blank text: an edit to white
    space only, of a message whose text is not empty, calls onEdit with
    that text as typed, although the chat input would never send it; and
    [handleEdit] of the market page then shows the blank text as the
    message and queries the server with it. *)
Theorem blank_edit_reaches_the_server
  (st : Transcript.State) (i : nat) (m : Transcript.Msg)
  (blank : JS.jsstring) (t_edit t_bot : N) :
  forallb is_white_space blank = true →
  text m ≠ [] →
  msgs st !! i = Some (Some m) →
  ChatMessage.handleSaveEdit (text m) (ChatMessage.mkState true blank)
  = (Some blank, ChatMessage.mkState false blank)
  ∧ ChatInput.sent (ChatInput.submit blank false) = None
  ∧ MarketChat.handleEdit JSON_parse fetch st i blank t_edit t_bot
    = mkState
        (take i (msgs st)
         ++ [Some (mkMsg (role m) blank t_edit (streaming m));
             Some (mkMsg (Some bot)
                     (MarketChat.reply_text JSON_parse fetch blank)
                     t_bot false)])
        false.
Proof.
  intros Hb Ht Hi. split; [|split].
  - unfold ChatMessage.handleSaveEdit. simpl.
    rewrite (proj2 (trim_nil_iff blank) Hb).
    by rewrite decide_False.
  - destruct (ChatInput.sent (ChatInput.submit blank false)) as [t|] eqn:E;
      [|done].
    apply submit_sent in E as (_ & Hne & _).
    by rewrite (proj2 (trim_nil_iff blank) Hb) in Hne.
  - by apply market_handleEdit_msgs.
Qed.

(** X15. [handleEdit] of the market page leaves the messages before the
    edited one, the edited message and exactly one bot message, which
    answers the edited text ([botReply] of the reply, or the friendly
    error sentence), with loading off: the transcript has [i + 2]
    messages afterwards, whatever followed the edited message before. *)
Theorem market_handleEdit_result
  (st : Transcript.State) (i : nat) (m : Transcript.Msg)
  (newText : JS.jsstring) (t_edit t_bot : N) :
  msgs st !! i = Some (Some m) →
  MarketChat.handleEdit JSON_parse fetch st i newText t_edit t_bot
  = mkState
      (take i (msgs st)
       ++ [Some (mkMsg (role m) newText t_edit (streaming m));
           Some (mkMsg (Some bot)
                   (MarketChat.reply_text JSON_parse fetch newText)
                   t_bot false)])
      false
  ∧ length (msgs (MarketChat.handleEdit JSON_parse fetch st i newText
                    t_edit t_bot)) = i + 2
  ∧ MarketChat.reply_text JSON_parse fetch newText ≠ [].
Proof.
  intros Hi. rewrite (market_handleEdit_msgs _ _ _ _ _ _ Hi).
  split; [done|]. split.
  - cbn [msgs]. rewrite length_app, length_take. simpl.
    apply lookup_lt_Some in Hi. lia.
  - unfold MarketChat.reply_text.
    destruct (Api.marketChatbotSync _ _ _);
      [apply botReply_nonempty|apply friendly_nonempty].
Qed.

(** X16. Loading is one flag shared by all requests of the market page,
    and the Edit button of a message is not disabled while it is set.
    While only a send is pending the chat input sends nothing and keeps
    the typed text.  When a message is edited while the send is
    pending, the reply to the send, when it arrives, is appended under
    the edited message and switches loading off: the input then sends
    again, the trimmed text unless it is blank, although the request of
    the edit is still pending. *)
Theorem first_reply_unblocks_the_input
  (st : Transcript.State) (q typed : JS.jsstring) (i : nat)
  (m : Transcript.Msg) (newText : JS.jsstring) (t_send t_edit t_bot : N) :
  msgs (MarketChat.handleSend_begin st q t_send) !! i = Some (Some m) →
  let pending_send := MarketChat.handleSend_begin st q t_send in
  let both_pending :=
    MarketChat.handleEdit_begin pending_send i newText t_edit in
  let send_replied :=
    MarketChat.reply JSON_parse fetch both_pending q t_bot in
  ChatInput.submit typed (loading pending_send)
  = ChatInput.mkSubmitted None typed
  ∧ loading both_pending = true
  ∧ loading send_replied = false
  ∧ ChatInput.submit typed (loading send_replied)
    = (if nonempty (trim typed)
       then ChatInput.mkSubmitted (Some (trim typed)) []
       else ChatInput.mkSubmitted None typed)
  ∧ msgs send_replied
    = take i (msgs st ++ [Some (mkMsg (Some user) q t_send false)])
      ++ [Some (mkMsg (role m) newText t_edit (streaming m));
          Some (mkMsg (Some bot)
                  (MarketChat.reply_text JSON_parse fetch q) t_bot false)].
Proof.
  intros Hi. cbn zeta.
  split. { unfold ChatInput.submit. simpl. by rewrite orb_true_r. }
  split; [done|]. split; [done|]. split.
  { unfold ChatInput.submit. simpl. rewrite orb_false_r.
    by destruct (nonempty (trim typed)). }
  unfold MarketChat.reply, MarketChat.handleEdit_begin, push, setLoading.
  cbn [msgs loading]. rewrite (edited_in_range _ _ _ _ _ Hi).
  by rewrite <- app_assoc.
Qed.

End EditBoxFacts.

(** ** Signing in *)
Section AuthFacts.
Import JS Auth.

(** X17. The login form signs in whoever submits it: the user is set,
    with the e-mail as typed or user@example.com when the field is
    empty, so the e-mail is never empty; the password plays no part;
    the form navigates to the chat, which then renders, while the login
    page itself redirects to the chat.  After logout the pages redirect
    to the login page. *)
Theorem login_signs_in_any_visitor (email pwd : JS.jsstring) :
  ∃ u,
    (Login_submit email pwd).1 = Some u
    ∧ Auth.email u ≠ []
    ∧ (email ≠ [] → Auth.email u = email)
    ∧ (email = [] → Auth.email u = lit "user@example.com")
    ∧ (∀ pwd', Login_submit email pwd' = Login_submit email pwd)
    ∧ (Login_submit email pwd).2 = lit "/chat"
    ∧ page_view (Login_submit email pwd).1 = Render
    ∧ Login_view (Login_submit email pwd).1 = Navigate (lit "/chat")
    ∧ page_view logout = Navigate (lit "/login")
    ∧ Login_view logout = Render.
Proof.
  unfold Login_submit, login. simpl. eexists. split; [done|].
  destruct email as [|c email]; simpl; split_and!; done.
Qed.

Lemma head_split (sep : N) (s l : jsstring) :
  head (split sep s) = Some l →
  l `prefix_of` s ∧ (sep ∉ l) ∧ (l = s ∨ ∃ rest, s = l ++ sep :: rest).
Proof.
  intros Hh. split; [|split].
  - revert l Hh. induction s as [|c s IH]; intros l; simpl.
    + by intros [= <-].
    + destruct (c =? sep)%N.
      * intros [= <-]. apply prefix_nil.
      * destruct (split sep s) as [|m ms] eqn:E.
        { by destruct (split_nonempty sep s). }
        intros [= <-]. apply prefix_cons. by apply IH.
  - apply (split_lines_no_sep sep s).
    destruct (split sep s); [done|]. injection Hh as ->.
    apply list_elem_of_here.
  - revert l Hh. induction s as [|c s IH]; intros l; simpl.
    + intros [= <-]. by left.
    + destruct (N.eqb_spec c sep) as [->|Hc].
      * intros [= <-]. right. by exists s.
      * destruct (split sep s) as [|m ms] eqn:E.
        { by destruct (split_nonempty sep s). }
        intros [= <-]. destruct (IH m eq_refl) as [->|[rest ->]].
        -- by left.
        -- right. by exists rest.
Qed.

(** X18. The name the sidebar shows is never empty and never holds an
    at sign: it is the part of the e-mail before its first at sign (the
    whole e-mail when it has none), and "User" when that part is empty
    or nobody is signed in. *)
Theorem displayName_is_local_part (user : option Auth.User) :
  displayName user ≠ []
  ∧ ((64%N) ∉ displayName user)
  ∧ (user = None → displayName user = lit "User")
  ∧ (∀ u, user = Some u →
       (displayName user = Auth.email u ∧ (64%N) ∉ Auth.email u)
       ∨ (∃ rest, Auth.email u = displayName user ++ 64%N :: rest)
       ∨ (displayName user = lit "User"
          ∧ (Auth.email u = [] ∨ ∃ rest, Auth.email u = 64%N :: rest))).
Proof.
  assert ((64%N) ∉ lit "User") as HU.
  { apply (bool_decide_unpack _). by vm_compute. }
  destruct user as [u|]; simpl; [|by split_and!].
  destruct (head (split 64 (Auth.email u))) as [l|] eqn:E.
  - destruct (head_split _ _ _ E) as (Hp & Hs & Hc).
    destruct l as [|c l]; simpl.
    + split_and!; [done|done|done|]. intros ? [= <-]. right. right.
      split; [done|]. destruct Hc as [<-|[rest ->]]; [by left|right; eauto].
    + split_and!; [done|done|done|]. intros ? [= <-].
      destruct Hc as [<-|[rest ->]]; [by left|right; left; eauto].
  - apply head_None in E. by destruct (split_nonempty 64 (Auth.email u)).
Qed.

End AuthFacts.

(** ** Editing on the portfolio page *)
Section PortfolioEdit.
Import JS Api Transcript Conv ApiMore PortfolioPage.
Variable JSON_parse : jsstring -> outcome JValue.
Variable fetch : Request -> outcome Response.
Variable Number_toString : float -> jsstring.

(** X19. When the stream ends with its end-of-stream marker,
    [handleEdit] of the portfolio page, on a message not marked as
    streaming, leaves the messages before the edited one, the edited
    message with its new text, and at most one bot message, which holds
    in a row the texts of the content chunks that could be converted to
    a string and is stamped at the first of them; everything that
    followed the edited message is gone and loading is off. *)
Theorem portfolio_edit_completed
  (st : Transcript.State) (i : nat) (m : Transcript.Msg)
  (newText : JS.jsstring) (t_edit : N) (clock : nat -> N) (t_catch : N)
  (chunks : list JS.jsval) :
  msgs st !! i = Some (Some m) →
  streaming m = false →
  portfolioChatbotStream JSON_parse fetch all_supplied newText
  = ((OnChunk <$> chunks) ++ [OnComplete], Returns tt) →
  handleEdit JSON_parse fetch Number_toString st i newText t_edit clock t_catch
  = mkState
      (take i (msgs st) ++ [Some (mkMsg (role m) newText t_edit false)]
       ++ streamed Number_toString chunks clock false)
      false.
Proof.
  intros Hi Hflag Hrun. unfold handleEdit, PortfolioChat.handleEdit_begin.
  assert (lastMsg (msgs (setLoading
            (mkState (edited (msgs st) i newText t_edit) (loading st)) true))
          = Some (mkMsg (role m) newText t_edit false)) as Hlast.
  { cbn [msgs setLoading]. rewrite (edited_in_range _ _ _ _ _ Hi), Hflag.
    apply lastMsg_snoc. }
  rewrite (stream_reply_completed _ _ _ _ _ _ _ _ chunks); [| | |done].
  - cbn [msgs setLoading]. rewrite (edited_in_range _ _ _ _ _ Hi), Hflag.
    by rewrite <- app_assoc.
  - intros l. rewrite Hlast. intros [= <-]. cbn [streaming]. apply andb_false_r.
  - intros l. rewrite Hlast. by intros [= <-].
Qed.

End PortfolioEdit.

(** ** Sample runs *)

(** X2 at a stream of one terminated line followed by an open one. *)
Lemma unterminated_last_line_is_dropped_witness :
  Api.read_loop Sample.parse Sample.all_callbacks
    (SampleMore.reads_open ++ [JS.Returns SampleMore.open_tail]) []
  = Api.read_loop Sample.parse Sample.all_callbacks SampleMore.reads_open []
  ∧ Api.read_loop Sample.parse Sample.all_callbacks
      (SampleMore.reads_open ++ [JS.Returns SampleMore.open_tail]) []
    = ([Api.OnChunk (JS.val (JS.JStr (JS.lit "Hi"))); Api.OnComplete],
       JS.Returns tt).
Proof.
  split; [|vm_compute; reflexivity].
  apply (unterminated_last_line_is_dropped Sample.parse Sample.all_callbacks
           SampleMore.reads_open [] SampleMore.open_tail).
  - apply (bool_decide_unpack _). vm_compute. reflexivity.
  - apply (bool_decide_unpack _). vm_compute. reflexivity.
Defined.

(** X8 at a stream of four content chunks, the first and the third of
    which cannot be converted: the other two make one message, stamped
    at the second call. *)
Lemma portfolio_send_completed_witness :
  PortfolioPage.handleSend SampleMore.parse
    (Sample.always SampleMore.reply_odd_content)
    SampleMore.number_text (Transcript.mkState Sample.transcript3 false)
    (JS.lit "show my holdings") 4 SampleMore.tick 99
  = Transcript.mkState
      (Sample.transcript3
       ++ [Some (Transcript.mkMsg (Some Transcript.user)
                   (JS.lit "show my holdings") 4 false);
           Some (Transcript.mkMsg (Some Transcript.bot)
                   (JS.lit "Hi there") 11 false)])
      false.
Proof.
  apply (proj1 (portfolio_send_completed SampleMore.parse
                  (Sample.always SampleMore.reply_odd_content)
                  SampleMore.number_text
                  (Transcript.mkState Sample.transcript3 false)
                  (JS.lit "show my holdings") 4 SampleMore.tick 99
                  [JS.val SampleMore.no_text;
                   JS.val (JS.JStr (JS.lit "Hi"));
                   JS.val SampleMore.no_text;
                   JS.val (JS.JStr (JS.lit " there"))]
                  ltac:(vm_compute; reflexivity))).
Defined.

(** X9 at a reply with status 500: the sentence is shown twice. *)
Lemma portfolio_failure_is_shown_twice_witness :
  (Api.portfolioChatbotStream Sample.parse (Sample.always Sample.reply_500)
     ApiMore.all_supplied (JS.lit "show my holdings")).2
  = JS.Throws (Api.server_error Sample.reply_500)
  ∧ ∃ chunks,
      (Api.portfolioChatbotStream Sample.parse (Sample.always Sample.reply_500)
         ApiMore.all_supplied (JS.lit "show my holdings")).1
      = (Api.OnChunk <$> chunks)
        ++ [Api.OnError (Api.Caught (Api.server_error Sample.reply_500))]
      ∧ PortfolioPage.handleSend Sample.parse (Sample.always Sample.reply_500)
          SampleMore.number_text (Transcript.mkState Sample.transcript3 false)
          (JS.lit "show my holdings") 4 SampleMore.tick 99
        = Transcript.mkState
            (Transcript.msgs (Transcript.mkState Sample.transcript3 false)
             ++ [Some (Transcript.mkMsg (Some Transcript.user)
                         (JS.lit "show my holdings") 4 false)]
             ++ PortfolioPage.streamed SampleMore.number_text chunks
                  SampleMore.tick true
             ++ [Some (Transcript.mkMsg (Some Transcript.bot)
                         (PortfolioPage.friendly PortfolioPage.send_prefix
                            (JS.message (Api.server_error Sample.reply_500)))
                         (SampleMore.tick (length chunks)) false);
                 Some (Transcript.mkMsg (Some Transcript.bot)
                         (PortfolioPage.friendly PortfolioPage.send_prefix
                            (JS.message (Api.server_error Sample.reply_500)))
                         99 false)])
            false.
Proof.
  split; [reflexivity|].
  apply (portfolio_failure_is_shown_twice Sample.parse
           (Sample.always Sample.reply_500) SampleMore.number_text
           (Transcript.mkState Sample.transcript3 false)
           (JS.lit "show my holdings") 4 SampleMore.tick 99
           (Api.server_error Sample.reply_500)).
  reflexivity.
Defined.

(** X10 at a stream of a chunk that cannot be converted, a content chunk
    and an error chunk. *)
Lemma portfolio_error_chunk_is_shown_once_witness :
  ∃ error_text,
    Conv.ToString_val SampleMore.number_text
      (JS.val (JS.JStr (JS.lit "Kite login required"))) = Some error_text
    ∧ PortfolioPage.handleSend SampleMore.parse
        (Sample.always SampleMore.reply_odd_content_error)
        SampleMore.number_text (Transcript.mkState Sample.transcript3 false)
        (JS.lit "show my holdings") 4 SampleMore.tick 99
      = Transcript.mkState
          (Transcript.msgs (Transcript.mkState Sample.transcript3 false)
           ++ [Some (Transcript.mkMsg (Some Transcript.user)
                       (JS.lit "show my holdings") 4 false)]
           ++ PortfolioPage.streamed SampleMore.number_text
                [JS.val SampleMore.no_text; JS.val (JS.JStr (JS.lit "Hi"))]
                SampleMore.tick true
           ++ [Some (Transcript.mkMsg (Some Transcript.bot)
                       (PortfolioPage.friendly PortfolioPage.send_prefix
                          error_text)
                       (SampleMore.tick 2) false)])
          false.
Proof.
  apply (portfolio_error_chunk_is_shown_once SampleMore.parse
           (Sample.always SampleMore.reply_odd_content_error)
           SampleMore.number_text
           (Transcript.mkState Sample.transcript3 false)
           (JS.lit "show my holdings") 4 SampleMore.tick 99
           [JS.val SampleMore.no_text; JS.val (JS.JStr (JS.lit "Hi"))]
           (JS.val (JS.JStr (JS.lit "Kite login required")))).
  vm_compute. reflexivity.
Defined.

(** What the page shows in that run: the streamed text, still marked as
    streaming, and the sentence with the error in brackets. *)
Example error_chunk_run_transcript :
  Transcript.msgs
    (PortfolioPage.handleSend SampleMore.parse
       (Sample.always SampleMore.reply_odd_content_error)
       SampleMore.number_text (Transcript.mkState [] false)
       (JS.lit "show my holdings") 4 SampleMore.tick 99)
  = [Some (Transcript.mkMsg (Some Transcript.user)
             (JS.lit "show my holdings") 4 false);
     Some (Transcript.mkMsg (Some Transcript.bot) (JS.lit "Hi") 11 true);
     Some (Transcript.mkMsg (Some Transcript.bot)
             (PortfolioPage.send_prefix ++ JS.lit "(Kite login required)")
             12 false)].
Proof. vm_compute. reflexivity. Qed.

(** X13 at a message typed with blanks around it. *)
Lemma saving_an_unchanged_message_does_nothing_witness :
  ChatInput.sent (ChatInput.submit (JS.lit "  price of TCS ") false)
  = Some (JS.lit "price of TCS")
  ∧ ChatMessage.handleSaveEdit (JS.lit "price of TCS")
      (ChatMessage.mkState true
         (JS.lit " " ++ JS.lit "price of TCS" ++ JS.lit "  "))
    = (None,
       ChatMessage.mkState false
         (JS.lit " " ++ JS.lit "price of TCS" ++ JS.lit "  ")).
Proof.
  split; [vm_compute; reflexivity|].
  apply (proj1 (saving_an_unchanged_message_does_nothing
                  (JS.lit "  price of TCS ") (JS.lit "price of TCS")
                  (JS.lit " ") (JS.lit "  ") false
                  ltac:(vm_compute; reflexivity) eq_refl eq_refl)).
Defined.

(** X14 at the sample transcript: the user message is edited to two
    blanks. *)
Lemma blank_edit_reaches_the_server_witness :
  ChatMessage.handleSaveEdit (JS.lit "price of TCS")
    (ChatMessage.mkState true (JS.lit "  "))
  = (Some (JS.lit "  "), ChatMessage.mkState false (JS.lit "  "))
  ∧ ChatInput.sent (ChatInput.submit (JS.lit "  ") false) = None.
Proof.
  pose proof (blank_edit_reaches_the_server Sample.parse
                (Sample.always Sample.reply_nifty)
                (Transcript.mkState Sample.transcript3 false) 1
                (Transcript.mkMsg (Some Transcript.user)
                   (JS.lit "price of TCS") 2 false)
                (JS.lit "  ") 7 8 eq_refl
                ltac:(discriminate) eq_refl) as (Hsave & Hsent & _).
  split; [exact Hsave|exact Hsent].
Defined.

(** X15 at the sample transcript: the user message at index 1 is edited
    and the bot message after it is replaced by the new reply. *)
Lemma market_handleEdit_result_witness :
  MarketChat.handleEdit Sample.parse (Sample.always Sample.reply_nifty)
    (Transcript.mkState Sample.transcript3 false) 1
    (JS.lit "price of INFY") 7 8
  = Transcript.mkState
      (take 1 (Transcript.msgs (Transcript.mkState Sample.transcript3 false))
       ++ [Some (Transcript.mkMsg (Some Transcript.user)
                   (JS.lit "price of INFY") 7 false);
           Some (Transcript.mkMsg (Some Transcript.bot)
                   (MarketChat.reply_text Sample.parse
                      (Sample.always Sample.reply_nifty)
                      (JS.lit "price of INFY"))
                   8 false)])
      false
  ∧ MarketChat.reply_text Sample.parse (Sample.always Sample.reply_nifty)
      (JS.lit "price of INFY") = JS.lit "Nifty is up.".
Proof.
  split; [|vm_compute; reflexivity].
  apply (proj1 (market_handleEdit_result Sample.parse
                  (Sample.always Sample.reply_nifty)
                  (Transcript.mkState Sample.transcript3 false) 1
                  (Transcript.mkMsg (Some Transcript.user)
                     (JS.lit "price of TCS") 2 false)
                  (JS.lit "price of INFY") 7 8 eq_refl)).
Defined.

(** X16 at the sample transcript: a question is sent, the earlier user
    message is edited while it is pending, and the reply to the question
    arrives: it lands under the edited message, the question itself is
    gone, and the input sends again. *)
Lemma first_reply_unblocks_the_input_witness :
  let pending_send :=
    MarketChat.handleSend_begin (Transcript.mkState Sample.transcript3 false)
      (JS.lit "and Infosys?") 4 in
  let send_replied :=
    MarketChat.reply Sample.parse (Sample.always Sample.reply_nifty)
      (MarketChat.handleEdit_begin pending_send 1 (JS.lit "price of INFY") 5)
      (JS.lit "and Infosys?") 6 in
  ChatInput.submit (JS.lit "hello") (Transcript.loading pending_send)
  = ChatInput.mkSubmitted None (JS.lit "hello")
  ∧ ChatInput.submit (JS.lit "hello") (Transcript.loading send_replied)
    = ChatInput.mkSubmitted (Some (JS.lit "hello")) []
  ∧ Transcript.msgs send_replied
    = [ Some (Transcript.mkMsg (Some Transcript.bot)
                (JS.lit "Hi! Ask me anything about market conditions.") 1
                false);
        Some (Transcript.mkMsg (Some Transcript.user)
                (JS.lit "price of INFY") 5 false);
        Some (Transcript.mkMsg (Some Transcript.bot)
                (JS.lit "Nifty is up.") 6 false) ].
Proof.
  pose proof (first_reply_unblocks_the_input Sample.parse
                (Sample.always Sample.reply_nifty)
                (Transcript.mkState Sample.transcript3 false)
                (JS.lit "and Infosys?") (JS.lit "hello") 1
                (Transcript.mkMsg (Some Transcript.user)
                   (JS.lit "price of TCS") 2 false)
                (JS.lit "price of INFY") 4 5 6 eq_refl)
    as (Hblocked & _ & _ & Hsends & Hmsgs).
  split; [exact Hblocked|]. split; [exact Hsends|exact Hmsgs].
Defined.

(** X19 at the sample transcript and the sample stream. *)
Lemma portfolio_edit_completed_witness :
  PortfolioPage.handleEdit Sample.parse (Sample.always Sample.reply_stream)
    SampleMore.number_text (Transcript.mkState Sample.transcript3 false) 1
    (JS.lit "show my holdings") 7 SampleMore.tick 99
  = Transcript.mkState
      [ Some (Transcript.mkMsg (Some Transcript.bot)
                (JS.lit "Hi! Ask me anything about market conditions.") 1
                false);
        Some (Transcript.mkMsg (Some Transcript.user)
                (JS.lit "show my holdings") 7 false);
        Some (Transcript.mkMsg (Some Transcript.bot)
                (JS.lit "Hi there") 10 false) ]
      false.
Proof.
  apply (portfolio_edit_completed Sample.parse
           (Sample.always Sample.reply_stream) SampleMore.number_text
           (Transcript.mkState Sample.transcript3 false) 1
           (Transcript.mkMsg (Some Transcript.user)
              (JS.lit "price of TCS") 2 false)
           (JS.lit "show my holdings") 7 SampleMore.tick 99
           [JS.val (JS.JStr (JS.lit "Hi"));
            JS.val (JS.JStr (JS.lit " there"))]
           eq_refl eq_refl).
  vm_compute. reflexivity.
Defined.
